(** * Camera prediction server: capture, inference bookkeeping, resolution probe

    The repository holds three revisions of the prediction server and one
    stream launcher:

    - [Legacy]: src/unnamed/part_001, first document (lines 1-230).  The
      second document of that file (lines 230-581) has the same
      [getModelList], [sendPrediction], [predictionLoop] and status route,
      line for line; its [captureFrame] adds a file write and a Windows mock.
    - [Api]: the server appended to src/src/components/PredictionLog.tsx
      (lines 172-506).  It is the only revision with [systemErrors],
      [addSystemError], the capture timeout and the /api/errors route, and
      the one modelled in full.  Against part_001 its [predictionLoop]
      differs by the [addSystemError] call in the [catch]; its
      [sendPrediction] uploads with [fetch] and tests [response.ok] where
      part_001 lets [axios] throw, and stores the record with the same two
      statements; the status route and the [setInterval] are the same.
    - [Streams]: src/unnamed/part_002, the MJPEG stream launcher with
      [detectCameraResolution]; its HTTP side is [Mjpeg], its process and
      server lists are [Launcher].
    - [DetectLegacy], [DetectApi], [DetectStreams]: [detectCameras] of the
      three files.
    - [Dashboard]: the effect and the result texts of the PredictionLog
      component (src/src/components/PredictionLog.tsx, lines 16-66).

    JavaScript runs every callback to completion, so a callback is a function
    from state to state and the program is the fold of its callbacks over the
    events the runtime delivers. *)

From Stdlib Require Import QArith Sorted.
From Stdlib.Strings Require Import Byte Ascii.
From stdpp Require Import base list strings pretty.

Set Warnings "-register-all,-abstract-large-number".
Open Scope string_scope.
Open Scope nat_scope.

(** ** Values shared by the revisions *)

(** A promise settles once; later calls of [resolve] or [reject] are ignored. *)
Inductive Promise (A : Type) : Type :=
| Pending
| Resolved (value : A)
| Rejected (message : string).
Arguments Pending {A}.
Arguments Resolved {A} value.
Arguments Rejected {A} message.

Definition resolve {A} (value : A) (p : Promise A) : Promise A :=
  match p with Pending => Resolved value | _ => p end.

Definition reject {A} (message : string) (p : Promise A) : Promise A :=
  match p with Pending => Rejected message | _ => p end.

Definition is_pending {A} (p : Promise A) : bool :=
  match p with Pending => true | _ => false end.

(** What [response.data] and [response.json()] can hold. *)
Inductive JSON : Type :=
| JNull
| JBool (b : bool)
| JNumber (q : Q)
| JString (s : string)
| JArray (items : list JSON)
| JObject (fields : list (string * JSON)).

(** JavaScript truthiness, as [x || y] tests it: null, false, 0 and the empty
    string are falsy; every array and object is truthy, the empty ones too. *)
Definition truthy (v : JSON) : bool :=
  match v with
  | JNull => false
  | JBool b => b
  | JNumber q => negb (Qeq_bool q 0)
  | JString s => negb (String.eqb s "")
  | JArray _ => true
  | JObject _ => true
  end.

(** [v.length] for a JSON value: defined for arrays and strings only. *)
Definition js_length (v : JSON) : option nat :=
  match v with
  | JArray items => Some (length items)
  | JString s => Some (String.length s)
  | _ => None
  end.

(** The instant whose [toISOString()] a record stores, in milliseconds. *)
Definition Timestamp := N.

(** Outcome of [axios.get]: a body, or a thrown error. *)
Inductive AxiosResult : Type :=
| axios_ok (data : JSON)
| axios_error (message : string).

(** The literal [["bacterial-disease", "early-blight"]]. *)
Definition defaultModels : JSON :=
  JArray [JString "bacterial-disease"; JString "early-blight"].

(** What a child process emits.  [close] carries the exit code, [None] when
    the process was ended by a signal. *)
Inductive ChildEvent : Type :=
| stdout_data (data : list byte)
| stderr_data (data : string)
| close (code : option Z)
| error (message : string).

Definition is_stderr (e : ChildEvent) : bool :=
  match e with stderr_data _ => true | _ => false end.

Definition is_close (e : ChildEvent) : bool :=
  match e with close _ => true | _ => false end.

(** [`${code}`] *)
Definition show_code (code : option Z) : string :=
  match code with Some z => pretty z | None => "null" end.

(** The text a child writes is held as [data.toString()] gives it, in
    UTF-8.  [WhiteSpace] lists what [String.prototype.trim] removes, the
    white space and the line terminators of ECMAScript, each in that
    encoding: U+0009 to U+000D, U+0020, U+00A0, U+1680, U+2000 to U+200A,
    U+2028, U+2029, U+202F, U+205F, U+3000 and U+FEFF. *)
Definition utf8_1 (a : ascii) : string := String a "".
Definition utf8_2 (a b : ascii) : string := String a (String b "").
Definition utf8_3 (a b c : ascii) : string := String a (String b (String c "")).

Definition WhiteSpace : list string :=
  ([ utf8_1 "009"; utf8_1 "010"; utf8_1 "011"; utf8_1 "012"; utf8_1 "013"; utf8_1 "032";
     utf8_2 "194" "160";
     utf8_3 "225" "154" "128" ] ++
   ((λ k, utf8_3 "226" "128" (ascii_of_nat (128 + k))) <$> seq 0 11) ++
   [ utf8_3 "226" "128" "168"; utf8_3 "226" "128" "169"; utf8_3 "226" "128" "175";
     utf8_3 "226" "129" "159";
     utf8_3 "227" "128" "128";
     utf8_3 "239" "187" "191" ])%list.

(** The length of the entry of [spaces] that [s] starts with. *)
Definition space_at (spaces : list string) (s : string) : option nat :=
  String.length <$> List.find (λ w, String.prefix w s) spaces.

(** [s] without the entries of [spaces] it starts with; [skip] counts the
    characters of the entry found that are still to pass. *)
Fixpoint strip (spaces : list string) (skip : nat) (s : string) : string :=
  match s with
  | EmptyString => s
  | String _ s' =>
      match skip with
      | S k => strip spaces k s'
      | 0 =>
          match space_at spaces s with
          | Some (S k) => strip spaces k s'
          | _ => s
          end
      end
  end.

Definition trimStart (s : string) : string := strip WhiteSpace 0 s.

Definition trimEnd (s : string) : string :=
  String.rev (strip (String.rev <$> WhiteSpace) 0 (String.rev s)).

Definition trim (s : string) : string := trimEnd (trimStart s).

(** The callbacks of one supervised child: its events, and the callback of
    the [setTimeout] armed when it was spawned. *)
Inductive Callback : Type :=
| child (e : ChildEvent)
| timer.

(** The callbacks in the order the event loop runs them: the child's events
    stamped before the deadline, the timer callback at the deadline, then the
    child's later events. *)
Fixpoint schedule (deadline : N) (es : list (N * ChildEvent)) : list (N * Callback) :=
  match es with
  | [] => [(deadline, timer)]
  | (t, e) :: es' =>
      if (t <? deadline)%N then (t, child e) :: schedule deadline es'
      else (deadline, timer) :: map (λ te, (te.1, child te.2)) es
  end.

(** ** The first server of src/unnamed/part_001 *)
Module Legacy.

(** part_001 lines 52-61. *)
Definition getModelList (response : AxiosResult) : JSON :=
  match response with
  | axios_ok data => if truthy data then data else defaultModels
  | axios_error _ => defaultModels
  end.

(** The closure of one [captureFrame] call, part_001 lines 92-121. *)
Record Capture : Type := mkCapture {
  imageBuffer : list byte;
  outcome : Promise (list byte)
}.

(** State right after [spawn]. *)
Definition captureFrame : Capture :=
  {| imageBuffer := []; outcome := Pending |}.

(** The listeners registered on the child.  No listener is registered for
    ['error'] and no timer is set; an ['error'] event without a listener is
    thrown by the emitter, which this returns as [None]. *)
Definition captureFrame_on (e : ChildEvent) (c : Capture) : option Capture :=
  match e with
  | stdout_data data =>
      Some {| imageBuffer := imageBuffer c ++ data; outcome := outcome c |}
  | close code =>
      if decide (code = Some 0%Z)
      then Some {| imageBuffer := imageBuffer c;
                   outcome := resolve (imageBuffer c) (outcome c) |}
      else Some {| imageBuffer := imageBuffer c;
                   outcome := reject ("FFmpeg exited with code " +:+ show_code code)
                                     (outcome c) |}
  | stderr_data _ => Some c
  | error _ => None
  end.

Fixpoint captureFrame_run (es : list ChildEvent) (c : Capture) : option Capture :=
  match es with
  | [] => Some c
  | e :: es' =>
      match captureFrame_on e c with
      | Some c' => captureFrame_run es' c'
      | None => None
      end
  end.

(** The chunks the child wrote to stdout among the events [es]. *)
Definition stdout_chunks (es : list ChildEvent) : list (list byte) :=
  omap (λ e, match e with stdout_data data => Some data | _ => None end) es.

Definition is_error (e : ChildEvent) : bool :=
  match e with error _ => true | _ => false end.

End Legacy.

(** ** The server with the error buffer (PredictionLog.tsx, lines 172-506) *)
Module Api.

Record Camera : Type := mkCamera {
  id : nat;
  device : string;
  streamPort : nat;
  streamUrl : string
}.

Record Prediction : Type := mkPrediction {
  cameraId : nat;
  model : option string;      (* [currentModels[currentModelIndex]], [None] when undefined *)
  timestamp : Timestamp;
  result : JSON
}.

Record ErrorEntry : Type := mkErrorEntry {
  e_cameraId : nat;
  e_error : string;
  e_timestamp : Timestamp
}.

(** Lines 203-213: [unshift], then [slice(0, 50)] when longer than 50. *)
Definition addSystemError (cameraId : nat) (error : string) (now : Timestamp)
    (systemErrors : list ErrorEntry) : list ErrorEntry :=
  let systemErrors' :=
    {| e_cameraId := cameraId; e_error := error; e_timestamp := now |} :: systemErrors in
  if 50 <? length systemErrors' then take 50 systemErrors' else systemErrors'.

(** Lines 281-290. *)
Definition getModelList (response : AxiosResult) : JSON :=
  match response with
  | axios_ok data => if truthy data then data else JArray []
  | axios_error _ => defaultModels
  end.

(** *** captureFrame, lines 292-378 ([STORE_IMAGES_TO_TMP] is [false]) *)

Record Capture : Type := mkCapture {
  imageBuffer : list byte;
  hasData : bool;
  stderrOutput : string;
  outcome : Promise (list byte);   (* the promise [captureFrame] returned *)
  killed : bool                    (* [ffmpeg.kill('SIGTERM')] was called *)
}.

(** State right after [spawn]. *)
Definition captureFrame : Capture :=
  {| imageBuffer := []; hasData := false; stderrOutput := "";
     outcome := Pending; killed := false |}.

Definition CAPTURE_TIMEOUT_MS : N := 10000.

Definition captureFailedMsg (camera : Camera) (code : option Z) (stderrOutput : string) : string :=
  "Failed to capture frame from MJPEG stream for camera " +:+ pretty (id camera)
    +:+ ". Exit code: " +:+ show_code code +:+ ". Stderr: " +:+ trim stderrOutput.

Definition ffmpegErrorMsg (camera : Camera) (message : string) : string :=
  "FFmpeg error for camera " +:+ pretty (id camera) +:+ ": " +:+ message.

Definition timeoutMsg (camera : Camera) : string :=
  "Timeout capturing frame from camera " +:+ pretty (id camera).

Definition set_outcome (p : Promise (list byte)) (c : Capture) : Capture :=
  {| imageBuffer := imageBuffer c; hasData := hasData c;
     stderrOutput := stderrOutput c; outcome := p; killed := killed c |}.

(** One callback of the capture closure; it may append to [systemErrors]. *)
Definition captureFrame_on (camera : Camera) (now : Timestamp) (cb : Callback)
    (c : Capture) (systemErrors : list ErrorEntry) : Capture * list ErrorEntry :=
  match cb with
  | child (stdout_data data) =>
      ({| imageBuffer := imageBuffer c ++ data; hasData := true;
          stderrOutput := stderrOutput c; outcome := outcome c; killed := killed c |},
       systemErrors)
  | child (stderr_data data) =>
      ({| imageBuffer := imageBuffer c; hasData := hasData c;
          stderrOutput := stderrOutput c +:+ data; outcome := outcome c;
          killed := killed c |},
       systemErrors)
  | child (close code) =>
      if bool_decide (code = Some 0%Z) && hasData c && (0 <? length (imageBuffer c))
      then (set_outcome (resolve (imageBuffer c) (outcome c)) c, systemErrors)
      else
        let errorMsg := captureFailedMsg camera code (stderrOutput c) in
        (set_outcome (reject errorMsg (outcome c)) c,
         addSystemError (id camera) errorMsg now systemErrors)
  | child (error message) =>
      let errorMsg := ffmpegErrorMsg camera message in
      (set_outcome (reject errorMsg (outcome c)) c,
       addSystemError (id camera) errorMsg now systemErrors)
  | timer =>
      if negb (hasData c)
      then
        let errorMsg := timeoutMsg camera in
        ({| imageBuffer := imageBuffer c; hasData := hasData c;
            stderrOutput := stderrOutput c;
            outcome := reject errorMsg (outcome c); killed := true |},
         addSystemError (id camera) errorMsg now systemErrors)
      else (c, systemErrors)
  end.

Fixpoint captureFrame_callbacks (camera : Camera) (cbs : list (N * Callback))
    (c : Capture) (systemErrors : list ErrorEntry) : Capture * list ErrorEntry :=
  match cbs with
  | [] => (c, systemErrors)
  | (now, cb) :: cbs' =>
      let r := captureFrame_on camera now cb c systemErrors in
      captureFrame_callbacks camera cbs' r.1 r.2
  end.

(** One capture spawned at [spawned], fed the child's events [es] (stamped
    in milliseconds), with its timer armed for [spawned + 10000]. *)
Definition captureFrame_run (camera : Camera) (spawned : N)
    (es : list (N * ChildEvent)) (systemErrors : list ErrorEntry)
    : Capture * list ErrorEntry :=
  captureFrame_callbacks camera (schedule (spawned + CAPTURE_TIMEOUT_MS)%N es)
    captureFrame systemErrors.

(** *** sendPrediction and predictionLoop, lines 380-445 *)

(** How the [fetch] of [sendPrediction] ends: a transport error, or a
    response with its status and, when the body parses, its JSON. *)
Inductive FetchResult : Type :=
| fetch_error (message : string)
| fetch_response (status : nat) (body : option JSON).

(** [response.ok] *)
Definition ok (status : nat) : bool := (200 <=? status) && (status <=? 299).

(** Where the async arrow function of [cameras.map] stands. *)
Inductive Stage : Type :=
| Capturing                                (* at [await captureFrame(camera)] *)
| Predicting (imageBuffer : list byte)     (* in [sendPrediction], at [await fetch] *)
| Returned (value : option Prediction).    (* returned; [null] is [None] *)

Record Task : Type := mkTask {
  loop : nat;                     (* the [predictionLoop] call that made it *)
  camera : Camera;
  currentModel : option string;   (* the [const currentModel] of that call *)
  capture : Capture;
  stage : Stage
}.

Record Server : Type := mkServer {
  cameras : list Camera;
  currentModels : list string;
  currentModelIndex : nat;
  predictions : list Prediction;
  systemErrors : list ErrorEntry;
  tasks : list Task;              (* every arrow function started so far *)
  loops : nat                     (* [predictionLoop] calls so far *)
}.

Definition set_systemErrors (es : list ErrorEntry) (s : Server) : Server :=
  {| cameras := cameras s; currentModels := currentModels s;
     currentModelIndex := currentModelIndex s; predictions := predictions s;
     systemErrors := es; tasks := tasks s; loops := loops s |}.

Definition set_predictions (ps : list Prediction) (s : Server) : Server :=
  {| cameras := cameras s; currentModels := currentModels s;
     currentModelIndex := currentModelIndex s; predictions := ps;
     systemErrors := systemErrors s; tasks := tasks s; loops := loops s |}.

Definition set_tasks (ts : list Task) (s : Server) : Server :=
  {| cameras := cameras s; currentModels := currentModels s;
     currentModelIndex := currentModelIndex s; predictions := predictions s;
     systemErrors := systemErrors s; tasks := ts; loops := loops s |}.

Definition set_currentModelIndex (i : nat) (s : Server) : Server :=
  {| cameras := cameras s; currentModels := currentModels s;
     currentModelIndex := i; predictions := predictions s;
     systemErrors := systemErrors s; tasks := tasks s; loops := loops s |}.

Definition set_task (t : Task) (c : Capture) (st : Stage) : Task :=
  {| loop := loop t; camera := camera t; currentModel := currentModel t;
     capture := c; stage := st |}.

(** The state after [initialize] has stored the cameras and the roster. *)
Definition boot (cameras : list Camera) (currentModels : list string) : Server :=
  {| cameras := cameras; currentModels := currentModels; currentModelIndex := 0;
     predictions := []; systemErrors := []; tasks := []; loops := 0 |}.

Definition is_returned (st : Stage) : bool :=
  match st with Returned _ => true | _ => false end.

(** [Promise.all(predictionPromises)] of call [n] is fulfilled: every arrow
    function of that call has returned (none of them throws). *)
Definition all_settled (n : nat) (ts : list Task) : bool :=
  forallb (λ t, if loop t =? n then is_returned (stage t) else true) ts.

(** Line 444, run when the [await Promise.all] of call [n] resumes. *)
Definition after_return (n : nat) (s : Server) : Server :=
  if all_settled n (tasks s)
  then set_currentModelIndex
         ((currentModelIndex s + 1) mod length (currentModels s)) s
  else s.

(** [predictionLoop] up to its [await]: the guard, the model of this call,
    and one arrow function per camera, each of which spawns its capture. *)
Definition predictionLoop (s : Server) : Server :=
  if (length (cameras s) =? 0) || (length (currentModels s) =? 0) then s
  else
    let currentModel := currentModels s !! currentModelIndex s in
    let started :=
      map (λ camera, {| loop := loops s; camera := camera;
                        currentModel := currentModel;
                        capture := captureFrame; stage := Capturing |})
          (cameras s) in
    {| cameras := cameras s; currentModels := currentModels s;
       currentModelIndex := currentModelIndex s; predictions := predictions s;
       systemErrors := systemErrors s; tasks := tasks s ++ started;
       loops := S (loops s) |}.

Definition captureFailed (camera : Camera) (message : string) : string :=
  "Camera " +:+ pretty (id camera) +:+ " capture failed: " +:+ message.

(** A callback of the capture of task [i].  When it settles the promise the
    arrow function is waiting on, the function resumes: into
    [sendPrediction] on a resolve, into its [catch] on a reject. *)
Definition on_capture (now : Timestamp) (i : nat) (cb : Callback)
    (s : Server) : Server :=
  match tasks s !! i with
  | None => s
  | Some t =>
      let r := captureFrame_on (camera t) now cb (capture t) (systemErrors s) in
      match stage t, outcome (capture t), outcome r.1 with
      | Capturing, Pending, Resolved imageBuffer =>
          set_tasks (<[i := set_task t r.1 (Predicting imageBuffer)]> (tasks s))
            (set_systemErrors r.2 s)
      | Capturing, Pending, Rejected message =>
          let errorMsg := captureFailed (camera t) message in
          after_return (loop t)
            (set_tasks (<[i := set_task t r.1 (Returned None)]> (tasks s))
               (set_systemErrors
                  (addSystemError (id (camera t)) errorMsg now r.2) s))
      | st, _, _ =>
          set_tasks (<[i := set_task t r.1 st]> (tasks s)) (set_systemErrors r.2 s)
      end
  end.

(** Lines 410-413: [unshift], then [slice(0, 100)] when longer than 100. *)
Definition record_prediction (p : Prediction) (predictions : list Prediction)
    : list Prediction :=
  let predictions' := p :: predictions in
  if 100 <? length predictions' then take 100 predictions' else predictions'.

(** [sendPrediction] of task [i] resumes when its [fetch] ends, lines
    395-419.  A transport error, a status outside 200-299 and a body that
    does not parse all land in its [catch], which logs and returns [null]. *)
Definition sendPrediction_resume (now : Timestamp) (i : nat) (r : FetchResult) (s : Server) : Server :=
  match tasks s !! i with
  | None => s
  | Some t =>
      match stage t with
      | Predicting _ =>
          match r with
          | fetch_response status (Some result) =>
              if ok status then
                let prediction :=
                  {| cameraId := id (camera t); model := currentModel t;
                     timestamp := now; result := result |} in
                after_return (loop t)
                  (set_tasks
                     (<[i := set_task t (capture t) (Returned (Some prediction))]> (tasks s))
                     (set_predictions (record_prediction prediction (predictions s)) s))
              else
                after_return (loop t)
                  (set_tasks (<[i := set_task t (capture t) (Returned None)]> (tasks s)) s)
          | _ =>
              after_return (loop t)
                (set_tasks (<[i := set_task t (capture t) (Returned None)]> (tasks s)) s)
          end
      | _ => s
      end
  end.

(** What the event loop delivers to the server. *)
Inductive Event : Type :=
| interval                                      (* [setInterval(predictionLoop, 2000)] *)
| capture_event (task : nat) (cb : Callback)
| fetch_settled (task : nat) (r : FetchResult).

Definition step (now : Timestamp) (ev : Event) (s : Server) : Server :=
  match ev with
  | interval => predictionLoop s
  | capture_event i cb => on_capture now i cb s
  | fetch_settled i r => sendPrediction_resume now i r s
  end.

Fixpoint run (evs : list (Timestamp * Event)) (s : Server) : Server :=
  match evs with
  | [] => s
  | (now, ev) :: evs' => run evs' (step now ev s)
  end.

(** *** initialize, lines 477-496 *)

(** The roster as [predictionLoop] reads it, for a body that is an array of
    strings, the shape the model-list route of the API answers with. *)
Fixpoint strings_of (items : list JSON) : option (list string) :=
  match items with
  | [] => Some []
  | JString s :: items' =>
      match strings_of items' with
      | Some l => Some (s :: l)
      | None => None
      end
  | _ :: _ => None
  end.

(** [cameras = await detectCameras(); currentModels = await getModelList()].
    The interval timer is armed only when a camera was detected; with none,
    [predictionLoop] would return at its guard anyway. *)
Definition initialize (detected : list Camera) (response : AxiosResult) : option Server :=
  match getModelList response with
  | JArray items =>
      match strings_of items with
      | Some roster => Some (boot detected roster)
      | None => None
      end
  | _ => None
  end.

(** *** GET /api/status, lines 463-471 *)

Record Status : Type := mkStatus {
  status_cameras : nat;
  status_models : list string;
  status_currentModel : option string;    (* [null] is [None] *)
  totalPredictions : nat;
  uptime : Q
}.

Definition api_status (uptime : Q) (s : Server) : Status :=
  {| status_cameras := length (cameras s);
     status_models := currentModels s;
     status_currentModel :=
       match currentModels s !! currentModelIndex s with
       | Some m => if String.eqb m "" then None else Some m
       | None => None
       end;
     totalPredictions := length (predictions s);
     uptime := uptime |}.

(** GET /api/predictions and GET /api/errors send the arrays as they are. *)
Definition api_predictions (s : Server) : list Prediction := predictions s.
Definition api_errors (s : Server) : list ErrorEntry := systemErrors s.

(** Captures of [camera] that are spawned and whose promise is unsettled. *)
Definition outstanding (cam : nat) (s : Server) : nat :=
  length (List.filter (λ t, (id (camera t) =? cam) && is_pending (outcome (capture t)))
                      (tasks s)).

(** *** Vocabulary of the statements *)



(** No arrow function is waiting: every one started so far has returned. *)
Definition quiescent (s : Server) : bool :=
  forallb (λ t, is_returned (stage t)) (tasks s).




(** Arrow functions that returned a prediction, over the whole run. *)
Definition completed_predictions (s : Server) : nat :=
  length (List.filter (λ t, match stage t with Returned (Some _) => true | _ => false end)
                      (tasks s)).

(** Before [deadline] the child wrote to stderr at most: no frame bytes, no
    exit, no spawn error. *)
Definition quiet_until (deadline : N) (es : list (N * ChildEvent)) : bool :=
  forallb (λ te, if (te.1 <? deadline)%N then is_stderr te.2 else true) es.

(** The child closed before [deadline]. *)
Definition exited_before (deadline : N) (es : list (N * ChildEvent)) : bool :=
  existsb (λ te, (te.1 <? deadline)%N && is_close te.2) es.

(** The chunks the child wrote to stdout among the callbacks [cbs]. *)
Definition stdout_chunks (cbs : list (N * Callback)) : list (list byte) :=
  omap (λ cb, match cb.2 with child (stdout_data data) => Some data | _ => None end) cbs.

(** Where an arrow function stands agrees with the promise of its capture:
    it waits for the capture while the promise is pending, and it went into
    [sendPrediction] with the frame the promise was resolved with, which is
    not empty. *)
Definition stage_agrees (t : Task) : Prop :=
  match stage t with
  | Capturing => outcome (capture t) = Pending
  | Predicting imageBuffer =>
      outcome (capture t) = Resolved imageBuffer ∧ imageBuffer ≠ []
  | Returned (Some _) =>
      ∃ imageBuffer, outcome (capture t) = Resolved imageBuffer ∧ imageBuffer ≠ []
  | Returned None => is_pending (outcome (capture t)) = false
  end.

End Api.

(** ** The stream launcher, src/unnamed/part_002 *)
Module Streams.

Definition is_digit (c : ascii) : bool :=
  match Ascii.is_nat c with Some _ => true | None => false end.

(** [\d{n}] at the head of [s]: the digits and what follows them. *)
Fixpoint digits (n : nat) (s : string) : option (string * string) :=
  match n with
  | 0 => Some ("", s)
  | S n' =>
      match s with
      | String c s' =>
          if is_digit c then
            match digits n' s' with
            | Some (d, r) => Some (String c d, r)
            | None => None
            end
          else None
      | EmptyString => None
      end
  end.

(** [\d{3,4}] followed by the rest of the pattern [k]: greedy, four digits
    first, three when the rest fails after four. *)
Definition digits34 {A} (s : string) (k : string → string → option A) : option A :=
  match digits 4 s with
  | Some (d, r) =>
      match k d r with
      | Some a => Some a
      | None => match digits 3 s with Some (d3, r3) => k d3 r3 | None => None end
      end
  | None => match digits 3 s with Some (d3, r3) => k d3 r3 | None => None end
  end.

(** [\d{3,4}x\d{3,4}] anchored at the head of [s]: the matched text. *)
Definition match_resolution (s : string) : option string :=
  digits34 s (λ w r,
    match r with
    | String "x"%char r' => digits34 r' (λ h _, Some (w +:+ "x" +:+ h))
    | _ => None
    end).

(** [line.match(/(\d{3,4}x\d{3,4})/g)], line 35: every match, left to
    right, the search resuming after each match.  [skip] counts the
    characters of the last match still to pass. *)
Fixpoint match_all (skip : nat) (line : string) : list string :=
  match line with
  | EmptyString => []
  | String _ line' =>
      match skip with
      | S k => match_all k line'
      | 0 =>
          match match_resolution line with
          | Some res => res :: match_all (String.length res - 1) line'
          | None => match_all 0 line'
          end
      end
  end.

Fixpoint strip_prefix (p s : string) : option string :=
  match p with
  | EmptyString => Some s
  | String a p' =>
      match s with
      | String b s' => if Ascii.eqb a b then strip_prefix p' s' else None
      | EmptyString => None
      end
  end.

(** [line.match(/Size: Discrete (\d{3,4}x\d{3,4})/)], line 48: group 1 of
    the leftmost match. *)
Fixpoint match_size_discrete (line : string) : option string :=
  let here :=
    match strip_prefix "Size: Discrete " line with
    | Some r => match_resolution r
    | None => None
    end in
  match here with
  | Some res => Some res
  | None =>
      match line with
      | String _ line' => match_size_discrete line'
      | EmptyString => None
      end
  end.

(** [output.split('\n')] *)
Fixpoint split_lines (s : string) : list string :=
  match s with
  | EmptyString => [""]
  | String c s' =>
      if Ascii.eqb c "010"%char then "" :: split_lines s'
      else
        match split_lines s' with
        | l :: ls => String c l :: ls
        | [] => [String c ""]
        end
  end.

Definition includes (res : string) (resolutions : list string) : bool :=
  existsb (String.eqb res) resolutions.

(** [if (!resolutions.includes(res)) resolutions.push(res)] *)
Definition push_new (resolutions : list string) (res : string) : list string :=
  if includes res resolutions then resolutions else resolutions ++ [res].

(** Lines 28-56: the resolutions collected from the probe's text. *)
Definition collect (isWindows : bool) (output : string) : list string :=
  let lines := split_lines output in
  if isWindows then
    fold_left (λ resolutions line, fold_left push_new (match_all 0 line) resolutions)
              lines []
  else
    fold_left (λ resolutions line,
                 match match_size_discrete line with
                 | Some res => push_new resolutions res
                 | None => resolutions
                 end)
              lines [].

(** [Number(s)] on a string of decimal digits. *)
Fixpoint Number_from (n : N) (s : string) : N :=
  match s with
  | String c s' =>
      Number_from (match Ascii.is_nat c with
                   | Some d => (10 * n + N.of_nat d)%N
                   | None => n
                   end) s'
  | EmptyString => n
  end.

Definition Number (s : string) : N := Number_from 0 s.

(** [res.split('x')]: the text before the first [x] and the text after it,
    up to the next [x]. *)
Fixpoint before_x (s : string) : string :=
  match s with
  | String c s' => if Ascii.eqb c "x"%char then "" else String c (before_x s')
  | EmptyString => ""
  end.

Fixpoint after_x (s : string) : string :=
  match s with
  | String c s' => if Ascii.eqb c "x"%char then before_x s' else after_x s'
  | EmptyString => ""
  end.

Record Candidate : Type := mkCandidate {
  res : string;
  width : N;
  height : N;
  pixels : N
}.

(** Lines 60-63. *)
Definition candidate (res : string) : Candidate :=
  let width := Number (before_x res) in
  let height := Number (after_x res) in
  {| res := res; width := width; height := height; pixels := (width * height)%N |}.

(** [.sort((a, b) => b.pixels - a.pixels)]: descending by pixel count, and
    stable, so equal counts keep their order. *)
Fixpoint insert_desc (a : Candidate) (l : list Candidate) : list Candidate :=
  match l with
  | [] => [a]
  | b :: l' => if (pixels a <? pixels b)%N then b :: insert_desc a l' else a :: l
  end.

Fixpoint sort_desc (l : list Candidate) : list Candidate :=
  match l with
  | [] => []
  | a :: l' => insert_desc a (sort_desc l')
  end.

Definition within_1080p (r : Candidate) : bool :=
  (width r <=? 1920)%N && (height r <=? 1080)%N.

(** Lines 28-68, the body of the ['close'] listener up to [selectedRes]. *)
Definition selectedRes (isWindows : bool) (output : string) : string :=
  let sortedResolutions := sort_desc (map candidate (collect isWindows output)) in
  match List.find within_1080p sortedResolutions with
  | Some maxRes => res maxRes
  | None => "1280x720"
  end.

(** The closure of one [detectCameraResolution] call, lines 9-86. *)
Record Probe : Type := mkProbe {
  output : string;
  resolved : Promise string;
  killed : bool
}.

Definition detectCameraResolution : Probe :=
  {| output := ""; resolved := Pending; killed := false |}.

Definition PROBE_TIMEOUT_MS : N := 5000.

Definition detectCameraResolution_on (isWindows : bool) (cb : Callback) (p : Probe) : Probe :=
  match cb with
  | child (stderr_data data) =>
      {| output := output p +:+ data; resolved := resolved p; killed := killed p |}
  | child (stdout_data _) => p
  | child (close _) =>
      {| output := output p;
         resolved := resolve (selectedRes isWindows (output p)) (resolved p);
         killed := killed p |}
  | child (error _) =>
      {| output := output p; resolved := resolve "1280x720" (resolved p);
         killed := killed p |}
  | timer =>
      {| output := output p; resolved := resolve "1280x720" (resolved p);
         killed := true |}
  end.

(** One probe fed the child's events [es] (stamped in milliseconds since
    the spawn), with its timer armed for 5000. *)
Definition detectCameraResolution_run (isWindows : bool) (es : list (N * ChildEvent)) : Probe :=
  fold_left (λ p cb, detectCameraResolution_on isWindows cb.2 p)
            (schedule PROBE_TIMEOUT_MS es) detectCameraResolution.

(** *** Vocabulary of the statements *)

(** The events whose listeners call [resolve]. *)
Definition settles (e : ChildEvent) : bool :=
  match e with close _ | error _ => true | _ => false end.

(** Before [deadline] the child neither closed nor failed to spawn. *)
Definition unsettled_until (deadline : N) (es : list (N * ChildEvent)) : bool :=
  forallb (λ te, if (te.1 <? deadline)%N then negb (settles te.2) else true) es.

End Streams.

(** ** Camera detection, in the three files *)

(** [s.startsWith(p)] *)
Fixpoint startsWith (p s : string) : bool :=
  match p with
  | EmptyString => true
  | String a p' =>
      match s with
      | String b s' => Ascii.eqb a b && startsWith p' s'
      | EmptyString => false
      end
  end.

(** [s.includes(sub)] on strings. *)
Fixpoint str_includes (sub s : string) : bool :=
  startsWith sub s ||
  match s with
  | String _ s' => str_includes sub s'
  | EmptyString => false
  end.

(** What follows the prefix [p] in [s], when [s] starts with it. *)
Fixpoint after_prefix (p s : string) : option string :=
  match p with
  | EmptyString => Some s
  | String a p' =>
      match s with
      | String b s' => if Ascii.eqb a b then after_prefix p' s' else None
      | EmptyString => None
      end
  end.

(** [`http://localhost:${port}/stream`] *)
Definition streamUrlOf (port : nat) : string :=
  "http://localhost:" +:+ pretty port +:+ "/stream".

(** The device files every revision looks for:
    [readdir('/dev')] filtered by [startsWith('video')], mapped to
    [`/dev/${device}`], filtered by [existsSync]. *)
Definition cameraDevices (videoDevices : list string) (existsSync : string → bool)
    : list string :=
  List.filter existsSync
    (map (λ device, "/dev/" +:+ device) (List.filter (startsWith "video") videoDevices)).

(** The double quote, and the two texts of the dshow listing that hold it. *)
Definition dquote : ascii := "034"%char.
Definition open_name : string := String "]" (String " " (String dquote "")).
Definition close_name : string := String dquote " (video)".

(** The group of the device pattern, one or more characters other than the
    double quote, is greedy and is followed by a double quote: it takes every
    character up to the next double quote. *)
Fixpoint up_to_quote (s : string) : string * string :=
  match s with
  | EmptyString => ("", "")
  | String c s' =>
      if Ascii.eqb c dquote then ("", s)
      else let r := up_to_quote s' in (String c r.1, r.2)
  end.

(** [line.match] with the device pattern of the listing (a closing
    bracket, a space, the name between double quotes, a space and [(video)]):
    group 1 of the leftmost match. *)
Fixpoint match_video_device (line : string) : option string :=
  let here :=
    match after_prefix open_name line with
    | Some r =>
        let nr := up_to_quote r in
        if negb (String.eqb nr.1 "") && startsWith close_name nr.2
        then Some nr.1 else None
    | None => None
    end in
  match here with
  | Some name => Some name
  | None =>
      match line with
      | String _ line' => match_video_device line'
      | EmptyString => None
      end
  end.

(** The device names read from the dshow listing: the loop over the lines
    with its two [includes] tests and the pattern. *)
Definition dshow_devices (output : string) : list string :=
  omap (λ line,
          if str_includes open_name line && str_includes close_name line
          then match_video_device line else None)
       (Streams.split_lines output).

Inductive Platform : Type := linux | win32 | other_platform.

(** part_001, first server, lines 25-50: Linux only, ports from 8081. *)
Module DetectLegacy.

Definition detectCameras (readdir : option (list string)) (existsSync : string → bool)
    : list Api.Camera :=
  match readdir with
  | Some videoDevices =>
      imap (λ i device, {| Api.id := i; Api.device := device;
                           Api.streamPort := 8081 + i;
                           Api.streamUrl := streamUrlOf (8081 + i) |})
           (cameraDevices videoDevices existsSync)
  | None => []
  end.

End DetectLegacy.

(** PredictionLog.tsx, lines 215-279, and the cameras route, lines 447-453. *)
Module DetectApi.

Definition camera (i : nat) (device : string) : Api.Camera :=
  {| Api.id := i; Api.device := device; Api.streamPort := 20000 + i;
     Api.streamUrl := streamUrlOf (20000 + i) |}.

(** [readdir] is [None] when it rejects; [dshow] is what ffmpeg wrote to
    stderr when asked for the device list. *)
Definition detectCameras (platform : Platform) (readdir : option (list string))
    (existsSync : string → bool) (dshow : string) : list Api.Camera :=
  match platform with
  | linux =>
      match readdir with
      | Some videoDevices => imap camera (cameraDevices videoDevices existsSync)
      | None => []
      end
  | win32 => imap camera (dshow_devices dshow)
  | other_platform => []
  end.

(** GET /api/cameras: [streamUrl: camera.streamUrl || `http://...`]. *)
Definition api_cameras (cameras : list Api.Camera) : list Api.Camera :=
  map (λ c, {| Api.id := Api.id c; Api.device := Api.device c;
               Api.streamPort := Api.streamPort c;
               Api.streamUrl := if String.eqb (Api.streamUrl c) ""
                                then streamUrlOf (Api.streamPort c)
                                else Api.streamUrl c |})
      cameras.

End DetectApi.

(** part_002, lines 88-157: every device is probed for its resolution. *)
Module DetectStreams.

Record Camera : Type := mkCamera {
  id : nat;
  device : string;
  port : nat;
  resolution : string;
  fps : nat
}.

(** [await detectCameraResolution(device)]: the value of the promise, if it
    resolves. *)
Definition awaited (p : Streams.Probe) : option string :=
  match Streams.resolved p with
  | Resolved resolution => Some resolution
  | _ => None
  end.

(** The loop over the devices.  [probe device] is what the probe's child
    emits; the result is [None] if an awaited probe never resolves. *)
Fixpoint detect_from (isWindows : bool) (probe : string → list (N * ChildEvent))
    (i : nat) (devices : list string) : option (list Camera) :=
  match devices with
  | [] => Some []
  | device :: devices' =>
      match awaited (Streams.detectCameraResolution_run isWindows (probe device)) with
      | Some resolution =>
          match detect_from isWindows probe (S i) devices' with
          | Some rest =>
              Some ({| id := i; device := device; port := 20000 + i;
                       resolution := resolution; fps := 5 |} :: rest)
          | None => None
          end
      | None => None
      end
  end.

Definition detectCameras (isWindows : bool) (readdir : option (list string))
    (existsSync : string → bool) (dshow : string)
    (probe : string → list (N * ChildEvent)) : option (list Camera) :=
  if isWindows then detect_from isWindows probe 0 (dshow_devices dshow)
  else
    match readdir with
    | Some videoDevices =>
        detect_from isWindows probe 0 (cameraDevices videoDevices existsSync)
    | None => Some []
    end.

End DetectStreams.

(** ** The HTTP side of a camera stream, part_002 lines 196-237 *)
Module Mjpeg.

(** What the handler calls on a response, in order. *)
Inductive Written : Type :=
| writeHead (status : nat) (headers : list (string * string))
| write_text (text : string)
| write_raw (data : list byte).

(** A response: the calls made on it before [res.end()], whether
    [res.end()] was called, and the [res.write] calls made after that, which
    Node refuses: they send nothing to the viewer. *)
Record Response : Type := mkResponse {
  written : list Written;
  ended : bool;
  after_end : list Written
}.

(** One [startCameraStream] call: every response its server has handed to
    the handler; those whose handler registered a listener on
    [ffmpeg.stdout], in the order of registration; and the chunks held by
    [ffmpeg.stdout], a readable stream that is paused, and keeps what it
    reads, until its first ['data'] listener is registered. *)
Record Stream : Type := mkStream {
  responses : list Response;
  listeners : list nat;
  buffered : list (list byte)
}.

Definition start : Stream := {| responses := []; listeners := []; buffered := [] |}.

Definition crlf : string := String "013"%char (String "010"%char "").

Definition streamHeaders : list (string * string) :=
  [("Content-Type", "multipart/x-mixed-replace; boundary=--mjpegboundary");
   ("Cache-Control", "no-cache, no-store, must-revalidate");
   ("Pragma", "no-cache");
   ("Expires", "0");
   ("Connection", "close");
   ("Access-Control-Allow-Origin", "*")].

(** The four writes of the data listener for one chunk. *)
Definition part (data : list byte) : list Written :=
  [write_text (crlf +:+ "--mjpegboundary" +:+ crlf);
   write_text ("Content-Type: image/jpeg" +:+ crlf);
   write_text ("Content-Length: " +:+ pretty (length data) +:+ crlf +:+ crlf);
   write_raw data].

Inductive Event : Type :=
| request (url : string)          (* the server's request handler runs *)
| stdout (data : list byte)       (* ffmpeg.stdout has read a chunk *)
| gone (viewer : nat).            (* ['close'] or ['error'] on that request *)

(** The [res.write] calls [calls], made in a row on a response. *)
Definition write (calls : list Written) (r : Response) : Response :=
  if ended r
  then {| written := written r; ended := true; after_end := (after_end r ++ calls)%list |}
  else {| written := (written r ++ calls)%list; ended := false; after_end := after_end r |}.

(** The data listener of response [v], run on one chunk. *)
Definition listener (data : list byte) (v : nat) (rs : list Response) : list Response :=
  match rs !! v with
  | Some r => <[v := write (part data) r]> rs
  | None => rs
  end.

(** [emit('data', data)]: the listeners run in the order of registration. *)
Definition emit (data : list byte) (vs : list nat) (rs : list Response) : list Response :=
  fold_left (λ rs v, listener data v rs) vs rs.

(** The chunks a paused stream holds are emitted, one by one, when the
    stream starts to flow, which is in the tick after its first ['data']
    listener was registered: they go to that listener alone. *)
Definition flow (chunks : list (list byte)) (v : nat) (rs : list Response) : list Response :=
  fold_left (λ rs data, listener data v rs) chunks rs.

Definition step (ev : Event) (s : Stream) : Stream :=
  match ev with
  | request url =>
      if String.eqb url "/stream"
      then
        let v := length (responses s) in
        let rs := (responses s ++
                   [{| written := [writeHead 200 streamHeaders]; ended := false;
                       after_end := [] |}])%list in
        match listeners s with
        | [] => {| responses := flow (buffered s) v rs; listeners := [v]; buffered := [] |}
        | _ :: _ =>
            {| responses := rs; listeners := (listeners s ++ [v])%list; buffered := buffered s |}
        end
      else {| responses := (responses s ++
                 [{| written := [writeHead 404 []]; ended := true; after_end := [] |}])%list;
              listeners := listeners s; buffered := buffered s |}
  | stdout data =>
      match listeners s with
      | [] => {| responses := responses s; listeners := [];
                 buffered := (buffered s ++ [data])%list |}
      | _ :: _ => {| responses := emit data (listeners s) (responses s);
                     listeners := listeners s; buffered := buffered s |}
      end
  | gone v =>
      if bool_decide (v ∈ listeners s)
      then {| responses := alter (λ r, {| written := written r; ended := true;
                                          after_end := after_end r |}) v (responses s);
              listeners := listeners s; buffered := buffered s |}
      else s
  end.

Definition run (evs : list Event) (s : Stream) : Stream :=
  fold_left (λ s ev, step ev s) evs s.

(** *** Vocabulary of the statements *)

Definition is_request (ev : Event) : bool :=
  match ev with request _ => true | _ => false end.



(** The requests among [evs]: the number of responses they create. *)
Definition requests (evs : list Event) : nat := length (List.filter is_request evs).

(** The chunks ffmpeg.stdout read during [evs], in order. *)
Definition chunks (evs : list Event) : list (list byte) :=
  omap (λ ev, match ev with stdout data => Some data | _ => None end) evs.


End Mjpeg.

(** ** The processes and the servers of the launcher, part_002 lines 159-160,
    193, 237, 252-258 and 268-307 *)
Module Launcher.

(** A child process and an HTTP server are named by the number of the
    [startCameraStream] call that made them. *)
Record State : Type := mkState {
  ffmpegProcesses : list nat;
  httpServers : list nat;
  calls : nat                     (* [startCameraStream] calls so far *)
}.

Definition startCameraStream (s : State) : State :=
  {| ffmpegProcesses := ffmpegProcesses s ++ [calls s];
     httpServers := httpServers s ++ [calls s];
     calls := S (calls s) |}.

(** [cameras.forEach(camera => startCameraStream(camera))] *)
Definition main (cameras : list DetectStreams.Camera) : State :=
  fold_left (λ s _, startCameraStream s) cameras
    {| ffmpegProcesses := []; httpServers := []; calls := 0 |}.

(** [array.indexOf(x)], [None] for -1. *)
Fixpoint indexOf (x : nat) (l : list nat) : option nat :=
  match l with
  | [] => None
  | y :: l' => if x =? y then Some 0 else S <$> indexOf x l'
  end.

(** The ['close'] listener of process [ffmpeg], lines 252-258. *)
Definition on_close (ffmpeg : nat) (s : State) : State :=
  match indexOf ffmpeg (ffmpegProcesses s) with
  | Some processIndex =>
      {| ffmpegProcesses := delete processIndex (ffmpegProcesses s);
         httpServers := httpServers s; calls := calls s |}
  | None => s
  end.

(** [cleanup], lines 284-304: the processes sent SIGTERM and the servers
    closed, in this order, before [process.exit(0)]. *)
Definition cleanup (s : State) : list nat * list nat :=
  (ffmpegProcesses s, httpServers s).

End Launcher.

(** ** The prediction panel of the dashboard, PredictionLog.tsx lines 16-66 *)
Module Dashboard.

(** What the effect compares two predictions by. *)
Definition key (p : Api.Prediction) : nat * option string * Timestamp :=
  (Api.cameraId p, Api.model p, Api.timestamp p).

(** The test inside [displayedPredictions.some]. *)
Definition same_entry (displayed pred : Api.Prediction) : bool :=
  (Api.cameraId displayed =? Api.cameraId pred) &&
  bool_decide (Api.model displayed = Api.model pred) &&
  (Api.timestamp displayed =? Api.timestamp pred)%N.

Definition newPredictions (predictions displayedPredictions : list Api.Prediction)
    : list Api.Prediction :=
  List.filter (λ pred, negb (existsb (λ displayed, same_entry displayed pred)
                                     displayedPredictions))
              predictions.

(** The effect that runs when a poll delivers [predictions]: the new value
    of [displayedPredictions]. *)
Definition useEffect (predictions displayedPredictions : list Api.Prediction)
    : list Api.Prediction :=
  let new := newPredictions predictions displayedPredictions in
  if 0 <? length new then take 50 (new ++ displayedPredictions)%list
  else displayedPredictions.

(** The panel after the polls [polls], the oldest first, starting empty. *)
Definition after_polls (polls : list (list Api.Prediction)) : list Api.Prediction :=
  fold_left (λ displayed predictions, useEffect predictions displayed) polls [].

(** [result.key]: the value of a property of a parsed JSON object, where a
    repeated key keeps its last value; undefined on every other value. *)
Fixpoint field (key : string) (fields : list (string * JSON)) : option JSON :=
  match fields with
  | [] => None
  | (k, v) :: fields' =>
      match field key fields' with
      | Some v' => Some v'
      | None => if String.eqb k key then Some v else None
      end
  end.

Definition prop (key : string) (v : JSON) : option JSON :=
  match v with
  | JObject fields => field key fields
  | _ => None
  end.

(** [if (result.key) return result.key] *)
Definition truthy_prop (key : string) (v : JSON) : option JSON :=
  match prop key v with
  | Some x => if truthy x then Some x else None
  | None => None
  end.

(** Lines 38-52.  The value returned is a string, or whatever truthy value
    the result holds under [prediction], [class] or [label]. *)
Definition getResultSummary (result : JSON) : JSON :=
  if negb (truthy result) then JString "No result"
  else
    match prop "detections" result with
    | Some (JArray detections) =>
        let detectionCount := length detections in
        if detectionCount =? 0 then JString "No detections"
        else JString (pretty detectionCount +:+ " detection"
                        +:+ (if detectionCount =? 1 then "" else "s"))
    | _ =>
        match truthy_prop "prediction" result with
        | Some x => x
        | None =>
            match truthy_prop "class" result with
            | Some x => x
            | None =>
                match truthy_prop "label" result with
                | Some x => x
                | None => JString "Processing..."
                end
            end
        end
    end.

(** [summary.includes(text)]: a substring test on a string, a membership
    test on an array, a TypeError ([None]) on anything else. *)
Definition summary_includes (summary : JSON) (text : string) : option bool :=
  match summary with
  | JString s => Some (str_includes text s)
  | JArray items =>
      Some (existsb (λ x, match x with JString s => String.eqb s text | _ => false end)
                    items)
  | _ => None
  end.

(** Lines 54-63; [None] when [includes] is not a function of the summary. *)
Definition getResultColor (result : JSON) : option string :=
  let summary := getResultSummary result in
  match summary_includes summary "No detections" with
  | None => None
  | Some true => Some "text-green-600"
  | Some false =>
      match summary_includes summary "No result" with
      | None => None
      | Some true => Some "text-green-600"
      | Some false =>
          match summary_includes summary "detection" with
          | None => None
          | Some true => Some "text-red-600"
          | Some false => Some "text-blue-600"
          end
      end
  end.

End Dashboard.


(** * Facts about the capture closures *)

Lemma resolve_settled {A} (v : A) p : is_pending p = false → resolve v p = p.
Proof. by destruct p. Qed.

Lemma reject_settled {A} m (p : Promise A) : is_pending p = false → reject m p = p.
Proof. by destruct p. Qed.

Lemma addSystemError_take cameraId error now es :
  Api.addSystemError cameraId error now es =
  take 50 (Api.mkErrorEntry cameraId error now :: es).
Proof.
  unfold Api.addSystemError. cbv zeta.
  destruct (50 <? _) eqn:E; [done|].
  apply Nat.ltb_ge in E. by rewrite take_ge.
Qed.


(** A settled promise of a capture is never changed by a later callback. *)
Lemma captureFrame_on_settled camera now cb c es :
  is_pending (Api.outcome c) = false →
  Api.outcome (Api.captureFrame_on camera now cb c es).1 = Api.outcome c.
Proof.
  intros Hs. destruct cb as [[data|data|code|message]|]; simpl; try done.
  - destruct (_ && _ && _); simpl; [by apply resolve_settled | by apply reject_settled].
  - by apply reject_settled.
  - destruct (Api.hasData c); simpl; [done | by apply reject_settled].
Qed.

(** [kill] is never undone. *)
Lemma captureFrame_on_killed camera now cb c es :
  Api.killed c = true →
  Api.killed (Api.captureFrame_on camera now cb c es).1 = true.
Proof.
  intros Hk. destruct cb as [[data|data|code|message]|]; simpl; try done.
  - by destruct (_ && _ && _).
  - by destruct (Api.hasData c).
Qed.

Lemma captureFrame_callbacks_settled camera cbs c es :
  is_pending (Api.outcome c) = false →
  Api.outcome (Api.captureFrame_callbacks camera cbs c es).1 = Api.outcome c.
Proof.
  revert c es. induction cbs as [|[now cb] cbs IH]; intros c es Hs; [done|].
  simpl. rewrite IH.
  - by apply captureFrame_on_settled.
  - by rewrite captureFrame_on_settled.
Qed.

Lemma captureFrame_callbacks_killed camera cbs c es :
  Api.killed c = true →
  Api.killed (Api.captureFrame_callbacks camera cbs c es).1 = true.
Proof.
  revert c es. induction cbs as [|[now cb] cbs IH]; intros c es Hk; [done|].
  simpl. apply IH. by apply captureFrame_on_killed.
Qed.

(** Frame bytes in the buffer mean [hasData] was set: the two are written by
    the same listener. *)
Lemma captureFrame_on_hasData camera now cb c es :
  (Api.imageBuffer c ≠ [] → Api.hasData c = true) →
  Api.imageBuffer (Api.captureFrame_on camera now cb c es).1 ≠ [] →
  Api.hasData (Api.captureFrame_on camera now cb c es).1 = true.
Proof.
  intros Hc. destruct cb as [[data|data|code|message]|]; simpl; try done.
  - destruct (_ && _ && _); simpl; auto.
  - destruct (Api.hasData c) eqn:E; simpl; auto.
Qed.

Lemma captureFrame_callbacks_hasData camera cbs c es :
  (Api.imageBuffer c ≠ [] → Api.hasData c = true) →
  Api.imageBuffer (Api.captureFrame_callbacks camera cbs c es).1 ≠ [] →
  Api.hasData (Api.captureFrame_callbacks camera cbs c es).1 = true.
Proof.
  revert c es. induction cbs as [|[now cb] cbs IH]; intros c es Hc; [done|].
  simpl. apply IH. by apply captureFrame_on_hasData.
Qed.

Lemma captureFrame_callbacks_cons camera now cb cbs c es :
  Api.captureFrame_callbacks camera ((now, cb) :: cbs) c es =
  Api.captureFrame_callbacks camera cbs
    (Api.captureFrame_on camera now cb c es).1 (Api.captureFrame_on camera now cb c es).2.
Proof. reflexivity. Qed.

Lemma quiet_capture_times_out camera deadline es c errs :
  Api.hasData c = false →
  Api.outcome c = Pending →
  Api.quiet_until deadline es = true →
  let r := Api.captureFrame_callbacks camera (schedule deadline es) c errs in
  Api.killed r.1 = true ∧ Api.outcome r.1 = Rejected (Api.timeoutMsg camera).
Proof.
  revert c errs. induction es as [|[t e] es IH]; intros c errs Hd Hp Hq.
  - simpl. rewrite Hd, Hp. done.
  - simpl in Hq. apply andb_prop in Hq as [He Hq]. cbn [schedule].
    destruct (t <? deadline)%N eqn:Et; simpl in He; rewrite ?Et in He.
    + destruct e; try discriminate He.
      rewrite captureFrame_callbacks_cons. apply IH; simpl; done.
    + cbv zeta. rewrite captureFrame_callbacks_cons. split.
      * apply captureFrame_callbacks_killed. simpl. by rewrite Hd.
      * rewrite captureFrame_callbacks_settled; simpl; rewrite Hd; simpl; by rewrite Hp.
Qed.

(** A capture that resolved holds frame bytes: [resolve] is called under the
    test [imageBuffer.length > 0] only. *)
Lemma captureFrame_on_resolved camera now cb c es :
  (∀ b, Api.outcome c = Resolved b → b ≠ []) →
  ∀ b, Api.outcome (Api.captureFrame_on camera now cb c es).1 = Resolved b → b ≠ [].
Proof.
  intros Hc b. destruct cb as [[data|data|code|message]|]; simpl; try apply Hc.
  - destruct (_ && _ && _) eqn:E; simpl.
    + destruct (Api.outcome c) eqn:Ho; simpl; [|by apply Hc|done].
      intros [= <-]. apply andb_prop in E as [_ E]. apply Nat.ltb_lt in E.
      intros Hn. rewrite Hn in E. simpl in E. lia.
    + destruct (Api.outcome c) eqn:Ho; simpl; [done|by apply Hc|done].
  - destruct (Api.outcome c) eqn:Ho; simpl; [done|by apply Hc|done].
  - destruct (Api.hasData c); simpl; [by apply Hc|].
    destruct (Api.outcome c) eqn:Ho; simpl; [done|by apply Hc|done].
Qed.

Lemma captureFrame_callbacks_resolved camera cbs c es :
  (∀ b, Api.outcome c = Resolved b → b ≠ []) →
  ∀ b, Api.outcome (Api.captureFrame_callbacks camera cbs c es).1 = Resolved b → b ≠ [].
Proof.
  revert c es. induction cbs as [|[now cb] cbs IH]; intros c es Hc; [done|].
  simpl. apply IH. by apply captureFrame_on_resolved.
Qed.

(** C3, as the code has it: a capture that has delivered no frame byte, has
    not exited and has raised no error by 10000 ms after its spawn is sent
    SIGTERM and fails with the timeout message.  The timer callback acts on
    [hasData] alone: without frame bytes it kills, records the timeout and
    rejects; with frame bytes it does nothing, whether or not the child is
    still running. *)
Theorem C3_timeout_of_a_silent_capture camera spawned es errs :
  Api.quiet_until (spawned + Api.CAPTURE_TIMEOUT_MS) es = true →
  let r := Api.captureFrame_run camera spawned es errs in
  (Api.killed r.1 = true ∧ Api.outcome r.1 = Rejected (Api.timeoutMsg camera)) ∧
  (∀ now c errs',
     let r' := Api.captureFrame_on camera now timer c errs' in
     (Api.hasData c = false →
        Api.killed r'.1 = true ∧
        Api.outcome r'.1 = reject (Api.timeoutMsg camera) (Api.outcome c) ∧
        r'.2 = Api.addSystemError (Api.id camera) (Api.timeoutMsg camera) now errs') ∧
     (Api.hasData c = true → r' = (c, errs'))).
Proof.
  intros Hq. split.
  - by apply quiet_capture_times_out.
  - intros now c errs'. simpl. split; intros ->; done.
Qed.

Lemma C3_timeout_witness :
  let camera := Api.mkCamera 0 "/dev/video0" 20000 "http://localhost:20000/stream" in
  let r := Api.captureFrame_run camera 2000 [(2300%N, stderr_data "Input #0")] [] in
  Api.killed r.1 = true ∧ Api.outcome r.1 = Rejected "Timeout capturing frame from camera 0".
Proof.
  intros camera.
  exact (proj1 (C3_timeout_of_a_silent_capture camera 2000
                  [(2300%N, stderr_data "Input #0")] [] eq_refl)).
Defined.

(** C3 fails as stated: a capture whose child wrote two frame bytes 500 ms
    after the spawn and then hung has not exited at 10000 ms, yet it is not
    killed and its promise stays pending. *)
Lemma C3_counterexample_hung_after_first_bytes :
  let camera := Api.mkCamera 0 "/dev/video0" 20000 "http://localhost:20000/stream" in
  let es := [(500%N, stdout_data [xff; xd8])] in
  let r := Api.captureFrame_run camera 0 es [] in
  Api.exited_before (0 + Api.CAPTURE_TIMEOUT_MS) es = false ∧
  Api.killed r.1 = false ∧
  Api.outcome r.1 = Pending ∧
  r.2 = [].
Proof. vm_compute. done. Qed.

(** The capture of part_001 has no timer: as long as the child has not
    closed, whatever else it emitted and however long it takes, the capture
    stays pending. *)
Lemma legacy_capture_waits_for_close es c c' :
  Legacy.outcome c = Pending →
  forallb (λ e, negb (is_close e)) es = true →
  Legacy.captureFrame_run es c = Some c' →
  Legacy.outcome c' = Pending.
Proof.
  revert c. induction es as [|e es IH]; intros c Hp Hes; simpl.
  - by intros [= <-].
  - simpl in Hes. apply andb_prop in Hes as [He Hes].
    destruct e as [data|data|code|message]; simpl; try done; by apply IH.
Qed.

(** C4, as the code has it.  In the server with the error buffer, when the
    child closes while the capture is still pending, the capture resolves,
    with the accumulated buffer, exactly when the exit code is 0 and the
    buffer is non-empty; otherwise, a success exit with an empty buffer
    included, it fails with the capture error and records it.  A capture
    already failed by the timer or by a spawn error is pending no more and
    stays failed.  In the servers of part_001 a pending capture resolves
    exactly when the exit code is 0, whatever the buffer holds. *)
Theorem C4_close_settles_a_pending_capture camera cbs errs0 now code :
  let r0 := Api.captureFrame_callbacks camera cbs Api.captureFrame errs0 in
  Api.outcome r0.1 = Pending →
  let r := Api.captureFrame_on camera now (child (close code)) r0.1 r0.2 in
  let errorMsg := Api.captureFailedMsg camera code (Api.stderrOutput r0.1) in
  ((∃ b, Api.outcome r.1 = Resolved b) ↔ code = Some 0%Z ∧ Api.imageBuffer r0.1 ≠ []) ∧
  (∀ b, Api.outcome r.1 = Resolved b → b = Api.imageBuffer r0.1) ∧
  (¬ (code = Some 0%Z ∧ Api.imageBuffer r0.1 ≠ []) →
     Api.outcome r.1 = Rejected errorMsg ∧
     r.2 = Api.addSystemError (Api.id camera) errorMsg now r0.2) ∧
  (∀ c errs, is_pending (Api.outcome c) = false →
     Api.outcome (Api.captureFrame_on camera now (child (close code)) c errs).1
     = Api.outcome c) ∧
  (∀ c0 : Legacy.Capture, Legacy.outcome c0 = Pending →
     ∃ c0', Legacy.captureFrame_on (close code) c0 = Some c0' ∧
            ((∃ b, Legacy.outcome c0' = Resolved b) ↔ code = Some 0%Z) ∧
            (code = Some 0%Z → Legacy.outcome c0' = Resolved (Legacy.imageBuffer c0))).
Proof.
  intros r0 Hp r errorMsg.
  assert (Hstay : ∀ c errs, is_pending (Api.outcome c) = false →
     Api.outcome (Api.captureFrame_on camera now (child (close code)) c errs).1
     = Api.outcome c).
  { intros c errs. apply captureFrame_on_settled. }
  assert (Hd : Api.imageBuffer r0.1 ≠ [] → Api.hasData r0.1 = true).
  { apply captureFrame_callbacks_hasData. done. }
  assert (Hlen : (0 <? length (Api.imageBuffer r0.1)) = true ↔ Api.imageBuffer r0.1 ≠ []).
  { rewrite Nat.ltb_lt. destruct (Api.imageBuffer r0.1); simpl; split; (done || lia). }
  subst r errorMsg. cbn [Api.captureFrame_on].
  destruct (bool_decide (code = Some 0%Z) && Api.hasData r0.1
            && (0 <? length (Api.imageBuffer r0.1))) eqn:E.
  - apply andb_prop in E as [E E3]. apply andb_prop in E as [E1 E2].
    apply bool_decide_eq_true in E1. apply Hlen in E3.
    simpl. rewrite Hp. simpl. split_and!.
    + split; [done | by eexists].
    + by intros b [= <-].
    + intros Hn. by destruct Hn.
    + exact Hstay.
    + intros c0 Hc0. unfold Legacy.captureFrame_on. rewrite decide_True by done.
      eexists. split; [done|]. simpl. rewrite Hc0. simpl. split; [|done].
      split; [done | by eexists].
  - assert (Hn : ¬ (code = Some 0%Z ∧ Api.imageBuffer r0.1 ≠ [])).
    { intros [H1 H2]. rewrite (Hd H2) in E. apply Hlen in H2. rewrite H2 in E.
      rewrite bool_decide_eq_true_2 in E by done. done. }
    simpl. rewrite Hp. simpl. split_and!.
    + split; [by intros [b Hb] | done].
    + done.
    + done.
    + exact Hstay.
    + intros c0 Hc0. unfold Legacy.captureFrame_on.
      destruct (decide (code = Some 0%Z)) as [Hc|Hc]; eexists; (split; [done|]);
        simpl; rewrite Hc0; simpl; (split; [|done]).
      * split; [done | by eexists].
      * split; [by intros [b Hb] | done].
Qed.

Lemma C4_close_witness :
  let camera := Api.mkCamera 0 "/dev/video0" 20000 "http://localhost:20000/stream" in
  let r0 := Api.captureFrame_callbacks camera [(700%N, child (stdout_data [xff; xd8]))]
              Api.captureFrame [] in
  let r := Api.captureFrame_on camera 900%N (child (close (Some 0%Z))) r0.1 r0.2 in
  Api.outcome r0.1 = Pending ∧ ∃ b, Api.outcome r.1 = Resolved b.
Proof.
  intros camera r0 r. split; [reflexivity|].
  apply (proj1 (C4_close_settles_a_pending_capture camera
                  [(700%N, child (stdout_data [xff; xd8]))] [] 900%N (Some 0%Z) eq_refl)).
  split; [reflexivity | discriminate].
Defined.

(** C4 fails as stated.  In the first server of part_001 a child that exits
    with code 0 without having written a byte resolves the capture, with the
    empty buffer.  In the server with the error buffer a capture whose first
    bytes and success exit are delivered just after the timer callback has a
    success exit and a non-empty buffer, and is failed with the timeout. *)
Lemma C4_counterexample_empty_frame_resolves :
  Legacy.captureFrame_run [close (Some 0%Z)] Legacy.captureFrame
    = Some {| Legacy.imageBuffer := []; Legacy.outcome := Resolved [] |} ∧
  (let camera := Api.mkCamera 0 "/dev/video0" 20000 "http://localhost:20000/stream" in
   let r := Api.captureFrame_run camera 0
              [(10001%N, stdout_data [xff; xd8]); (10002%N, close (Some 0%Z))] [] in
   Api.imageBuffer r.1 = [xff; xd8] ∧
   Api.outcome r.1 = Rejected "Timeout capturing frame from camera 0").
Proof. vm_compute. done. Qed.

(** * The roster initializer *)

(** C9, as the code has it.  In the servers of part_001 a failed fetch and a
    falsy body both give the default roster of two models, and any truthy
    body is returned as it came; the empty array is truthy, so the roster is
    empty exactly when the body is the empty array.  In the server with the
    error buffer a failed fetch gives the default roster, a falsy body gives
    the empty roster, and a truthy body is returned as it came. *)
Theorem C9_roster_initializer (response : AxiosResult) :
  (match response with
   | axios_error _ => Legacy.getModelList response = defaultModels
   | axios_ok data =>
       Legacy.getModelList response = (if truthy data then data else defaultModels)
   end) ∧
  js_length defaultModels = Some 2 ∧
  (js_length (Legacy.getModelList response) = Some 0 ↔ response = axios_ok (JArray [])) ∧
  (match response with
   | axios_error _ => Api.getModelList response = defaultModels
   | axios_ok data =>
       Api.getModelList response = (if truthy data then data else JArray [])
   end).
Proof.
  split; [by destruct response|]. split; [done|]. split; [|by destruct response].
  destruct response as [data|message]; simpl; [|split; done].
  destruct data as [|b|q|s|items|fields]; simpl; try (split; done).
  - destruct b; simpl; split; done.
  - destruct (Qeq_bool q 0); simpl; split; done.
  - destruct s as [|a s]; simpl; [split; done|]. split; done.
  - destruct items; simpl; split; (done || congruence).
Qed.

(** C9 fails as stated: the API answers with the empty array, a truthy
    value, and the roster after initialization is empty, in every revision. *)
Lemma C9_counterexample_empty_array :
  let camera := Api.mkCamera 0 "/dev/video0" 20000 "http://localhost:20000/stream" in
  Legacy.getModelList (axios_ok (JArray [])) = JArray [] ∧
  js_length (Legacy.getModelList (axios_ok (JArray []))) = Some 0 ∧
  Api.getModelList (axios_ok (JArray [])) = JArray [] ∧
  Api.currentModels <$> Api.initialize [camera] (axios_ok (JArray [])) = Some [].
Proof. done. Qed.

(** * Facts about the server *)

Lemma after_return_fields n s :
  Api.cameras (Api.after_return n s) = Api.cameras s ∧
  Api.currentModels (Api.after_return n s) = Api.currentModels s ∧
  Api.predictions (Api.after_return n s) = Api.predictions s ∧
  Api.systemErrors (Api.after_return n s) = Api.systemErrors s ∧
  Api.tasks (Api.after_return n s) = Api.tasks s ∧
  Api.loops (Api.after_return n s) = Api.loops s.
Proof. unfold Api.after_return. by destruct (Api.all_settled _ _). Qed.

Ltac after_return_simpl :=
  repeat match goal with
  | |- context [Api.cameras (Api.after_return ?n ?s)] =>
      rewrite (proj1 (after_return_fields n s))
  | |- context [Api.currentModels (Api.after_return ?n ?s)] =>
      rewrite (proj1 (proj2 (after_return_fields n s)))
  | |- context [Api.predictions (Api.after_return ?n ?s)] =>
      rewrite (proj1 (proj2 (proj2 (after_return_fields n s))))
  | |- context [Api.systemErrors (Api.after_return ?n ?s)] =>
      rewrite (proj1 (proj2 (proj2 (proj2 (after_return_fields n s)))))
  | |- context [Api.tasks (Api.after_return ?n ?s)] =>
      rewrite (proj1 (proj2 (proj2 (proj2 (proj2 (after_return_fields n s))))))
  | |- context [Api.loops (Api.after_return ?n ?s)] =>
      rewrite (proj2 (proj2 (proj2 (proj2 (proj2 (after_return_fields n s))))))
  end.

(** Case analysis on a capture callback of the server, one case per branch
    of [on_capture].  The task is [t], found by [Ht]; [r] is what the
    capture's own callback gives. *)
Ltac on_capture_cases i s :=
  unfold Api.on_capture;
  destruct (Api.tasks s !! i) as [t|] eqn:Ht;
  [ set (r := Api.captureFrame_on _ _ _ _ _); cbv zeta;
    destruct (Api.stage t) as [|imageBuffer|returned] eqn:Hst;
    destruct (Api.outcome (Api.capture t)) as [|value0|message0] eqn:Hold;
    destruct (Api.outcome r.1) as [|value|message] eqn:Hnew
  | ].

(** Case analysis on a fetch result of the server, one case per branch of
    [sendPrediction_resume]. *)
Ltac sendPrediction_resume_cases i r s :=
  unfold Api.sendPrediction_resume;
  destruct (Api.tasks s !! i) as [t|] eqn:Ht;
  [ destruct (Api.stage t) as [|imageBuffer|returned] eqn:Hst;
    [ | destruct r as [message|status [result|]];
        [ | destruct (Api.ok status) eqn:Hok | ] | ]
  | ].

Lemma step_static now ev s :
  Api.cameras (Api.step now ev s) = Api.cameras s ∧
  Api.currentModels (Api.step now ev s) = Api.currentModels s.
Proof.
  destruct ev as [|i cb|i r]; simpl.
  - unfold Api.predictionLoop. by destruct (_ || _).
  - on_capture_cases i s; after_return_simpl; done.
  - sendPrediction_resume_cases i r s; after_return_simpl; done.
Qed.


Lemma record_prediction_take p ps :
  Api.record_prediction p ps = take 100 (p :: ps).
Proof.
  unfold Api.record_prediction. cbv zeta.
  destruct (100 <? _) eqn:E; [done|].
  apply Nat.ltb_ge in E. by rewrite take_ge.
Qed.

Lemma record_prediction_length p ps : length (Api.record_prediction p ps) ≤ 100.
Proof. rewrite record_prediction_take, length_take. lia. Qed.

(** On overflow the record at the end of the array, the oldest, is dropped. *)
Lemma record_prediction_evicts p ps :
  length ps = 100 → Api.record_prediction p ps = p :: removelast ps.
Proof.
  intros Hl. rewrite record_prediction_take.
  change (take 100 (p :: ps)) with (p :: take 99 ps). f_equal.
  destruct (exists_last (l := ps)) as (ps' & q & ->).
  { intros ->. discriminate Hl. }
  rewrite removelast_last. rewrite length_app in Hl. simpl in Hl.
  rewrite take_app_le by lia. apply take_ge. lia.
Qed.

(** The prediction array changes in one place: a fetch that succeeded. *)
Lemma step_predictions now ev s :
  Api.predictions (Api.step now ev s) = Api.predictions s ∨
  ∃ p, Api.predictions (Api.step now ev s) = Api.record_prediction p (Api.predictions s).
Proof.
  destruct ev as [|i cb|i r]; simpl.
  - left. unfold Api.predictionLoop. by destruct (_ || _).
  - left. on_capture_cases i s; after_return_simpl; done.
  - sendPrediction_resume_cases i r s; after_return_simpl; simpl; eauto.
Qed.

Lemma run_predictions_bound evs s :
  length (Api.predictions s) ≤ 100 →
  length (Api.predictions (Api.run evs s)) ≤ 100.
Proof.
  revert s. induction evs as [|[now ev] evs IH]; intros s Hs; [done|].
  simpl. apply IH.
  destruct (step_predictions now ev s) as [-> | [p ->]]; [done|].
  apply record_prediction_length.
Qed.

(** The error array changes on capture callbacks only; the outcome of a
    fetch never touches it. *)
Lemma sendPrediction_resume_systemErrors now i r s :
  Api.systemErrors (Api.sendPrediction_resume now i r s) = Api.systemErrors s.
Proof. sendPrediction_resume_cases i r s; after_return_simpl; done. Qed.

(** The path next to it does record: when a callback rejects the capture a
    task is waiting on, the [catch] of the arrow function adds its entry on
    top of the one [captureFrame] added. *)
Lemma capture_failure_is_recorded now i cb s t message :
  Api.tasks s !! i = Some t →
  Api.stage t = Api.Capturing →
  Api.outcome (Api.capture t) = Pending →
  let r := Api.captureFrame_on (Api.camera t) now cb (Api.capture t) (Api.systemErrors s) in
  Api.outcome r.1 = Rejected message →
  Api.systemErrors (Api.step now (Api.capture_event i cb) s) =
  Api.addSystemError (Api.id (Api.camera t)) (Api.captureFailed (Api.camera t) message) now r.2.
Proof.
  intros Ht Hst Hold r Hnew. simpl. unfold Api.on_capture. rewrite Ht. cbv zeta.
  fold r. rewrite Hst, Hold, Hnew. after_return_simpl. done.
Qed.


(** C1, at the failing input.  One camera, one model: the frame is captured,
    the prediction API answers 500.  [sendPrediction] catches the error it
    throws, logs it and returns [null]: the error array stays empty, no
    prediction is stored, and the tick completes.  In general no outcome of a
    fetch changes the error array. *)
Theorem C1_inference_failure_leaves_no_error_record :
  (let camera := Api.mkCamera 0 "/dev/video0" 20000 "http://localhost:20000/stream" in
   let s := Api.run
              [(2000%N, Api.interval);
               (2400%N, Api.capture_event 0 (child (stdout_data [xff; xd8])));
               (2500%N, Api.capture_event 0 (child (close (Some 0%Z))));
               (2900%N, Api.fetch_settled 0
                          (Api.fetch_response 500 (Some (JObject [("detail", JString "model failed")]))))]
              (Api.boot [camera] ["bacterial-disease"; "early-blight"]) in
   Api.api_errors s = [] ∧
   Api.api_predictions s = [] ∧
   Api.stage <$> Api.tasks s = [Api.Returned None] ∧
   Api.currentModelIndex s = 1) ∧
  (∀ now i r s,
     Api.systemErrors (Api.step now (Api.fetch_settled i r) s) = Api.systemErrors s).
Proof.
  split; [vm_compute; done|]. intros now i r s. apply sendPrediction_resume_systemErrors.
Qed.

(** C7.  In every state the server reaches, the prediction array holds at
    most 100 records.  A fetch that succeeds puts its record at the front of
    the array, which the routes send front first, and keeps the first 100:
    when the array was full, the record at its end, the oldest, is dropped. *)
Theorem C7_prediction_ring_buffer cameras models evs :
  let s := Api.run evs (Api.boot cameras models) in
  length (Api.api_predictions s) ≤ 100 ∧
  ∀ now i status result t imageBuffer,
    Api.tasks s !! i = Some t →
    Api.stage t = Api.Predicting imageBuffer →
    Api.ok status = true →
    let p := {| Api.cameraId := Api.id (Api.camera t); Api.model := Api.currentModel t;
                Api.timestamp := now; Api.result := result |} in
    let s' := Api.step now (Api.fetch_settled i (Api.fetch_response status (Some result))) s in
    Api.api_predictions s' = take 100 (p :: Api.api_predictions s) ∧
    head (Api.api_predictions s') = Some p ∧
    length (Api.api_predictions s') ≤ 100 ∧
    (length (Api.api_predictions s) = 100 →
       Api.api_predictions s' = p :: removelast (Api.api_predictions s)).
Proof.
  intros s. split.
  { apply run_predictions_bound. simpl. lia. }
  intros now i status result t imageBuffer Ht Hst Hok p s'.
  assert (Hs' : Api.api_predictions s' = Api.record_prediction p (Api.predictions s)).
  { subst s'. unfold Api.api_predictions. simpl. unfold Api.sendPrediction_resume.
    rewrite Ht, Hst, Hok. after_return_simpl. done. }
  rewrite Hs'. unfold Api.api_predictions. split_and!.
  - apply record_prediction_take.
  - by rewrite record_prediction_take.
  - apply record_prediction_length.
  - apply record_prediction_evicts.
Qed.

Lemma C7_prediction_witness :
  let camera := Api.mkCamera 0 "/dev/video0" 20000 "http://localhost:20000/stream" in
  let evs := [(2000%N, Api.interval);
              (2400%N, Api.capture_event 0 (child (stdout_data [xff; xd8])));
              (2500%N, Api.capture_event 0 (child (close (Some 0%Z))))] in
  let s := Api.run evs (Api.boot [camera] ["early-blight"]) in
  let s' := Api.step 2900%N
              (Api.fetch_settled 0 (Api.fetch_response 200 (Some (JString "healthy")))) s in
  head (Api.api_predictions s') =
  Some {| Api.cameraId := 0; Api.model := Some "early-blight";
          Api.timestamp := 2900%N; Api.result := JString "healthy" |}.
Proof.
  intros camera evs s s'.
  exact (proj1 (proj2 (proj2 (C7_prediction_ring_buffer [camera] ["early-blight"] evs)
                         2900%N 0 200 (JString "healthy") _ [xff; xd8]
                         eq_refl eq_refl eq_refl))).
Defined.

(** C10.  The [totalPredictions] of GET /api/status is the length of the
    prediction array at that moment, so it is at most 100.  It is not a
    count over the whole run: after 101 ticks of one camera, each ending in
    a stored prediction, it reads 100. *)
Theorem C10_totalPredictions_is_the_buffer_length cameras models evs uptime :
  let s := Api.run evs (Api.boot cameras models) in
  Api.totalPredictions (Api.api_status uptime s) = length (Api.api_predictions s) ∧
  Api.totalPredictions (Api.api_status uptime s) ≤ 100 ∧
  (let camera := Api.mkCamera 0 "/dev/video0" 20000 "http://localhost:20000/stream" in
   let tick k :=
     let fired := (2000 * N.of_nat (S k))%N in
     [(fired, Api.interval);
      ((fired + 400)%N, Api.capture_event k (child (stdout_data [xff; xd8])));
      ((fired + 500)%N, Api.capture_event k (child (close (Some 0%Z))));
      ((fired + 900)%N,
       Api.fetch_settled k (Api.fetch_response 200 (Some (JString "healthy"))))] in
   let s101 := Api.run (flat_map tick (seq 0 101)) (Api.boot [camera] ["early-blight"]) in
   Api.completed_predictions s101 = 101 ∧
   Api.totalPredictions (Api.api_status uptime s101) = 100).
Proof.
  intros s. split_and!.
  - done.
  - simpl. apply run_predictions_bound. simpl. lia.
  - vm_compute. done.
Qed.

(** * Ticks *)

Lemma predictionLoop_started s :
  Api.cameras s ≠ [] → Api.currentModels s ≠ [] →
  Api.predictionLoop s =
  {| Api.cameras := Api.cameras s; Api.currentModels := Api.currentModels s;
     Api.currentModelIndex := Api.currentModelIndex s;
     Api.predictions := Api.predictions s; Api.systemErrors := Api.systemErrors s;
     Api.tasks :=
       Api.tasks s ++
       map (λ camera, {| Api.loop := Api.loops s; Api.camera := camera;
                         Api.currentModel := Api.currentModels s !! Api.currentModelIndex s;
                         Api.capture := Api.captureFrame; Api.stage := Api.Capturing |})
           (Api.cameras s);
     Api.loops := S (Api.loops s) |}.
Proof.
  intros Hc Hm. unfold Api.predictionLoop.
  destruct (Api.cameras s) as [|c cs]; [done|].
  destruct (Api.currentModels s) as [|m ms]; [done|]. done.
Qed.

(** C2, as the code has it.  The timer callback has no guard on work in
    flight: whenever cameras and roster are non-empty, it starts one capture
    per camera, on top of whatever is outstanding.  So the captures
    outstanding for a camera grow by one with each firing, and nothing bounds
    them by one. *)
Theorem C2_every_firing_starts_captures now s :
  Api.cameras s ≠ [] →
  Api.currentModels s ≠ [] →
  let s' := Api.step now Api.interval s in
  Api.tasks s' =
    (Api.tasks s ++
     map (λ camera, {| Api.loop := Api.loops s; Api.camera := camera;
                       Api.currentModel := Api.currentModels s !! Api.currentModelIndex s;
                       Api.capture := Api.captureFrame; Api.stage := Api.Capturing |})
         (Api.cameras s))%list ∧
  ∀ cam, Api.outstanding cam s' =
         Api.outstanding cam s +
         length (List.filter (λ camera, Api.id camera =? cam) (Api.cameras s)).
Proof.
  intros Hc Hm s'. subst s'. simpl. rewrite predictionLoop_started by done.
  split; [done|]. intros cam. unfold Api.outstanding. simpl.
  rewrite List.filter_app, length_app. f_equal.
  generalize (Api.cameras s) as cs. clear Hc.
  induction cs as [|c cs IH]; [done|].
  simpl. rewrite andb_true_r. destruct (Api.id c =? cam); simpl; by rewrite IH.
Qed.

Lemma C2_firing_witness :
  let camera := Api.mkCamera 0 "/dev/video0" 20000 "http://localhost:20000/stream" in
  let s := Api.step 2000%N Api.interval (Api.boot [camera] ["early-blight"]) in
  Api.outstanding 0 (Api.step 4000%N Api.interval s) = Api.outstanding 0 s + 1.
Proof.
  intros camera s.
  assert (Hc : Api.cameras s ≠ []) by discriminate.
  assert (Hm : Api.currentModels s ≠ []) by discriminate.
  exact (proj2 (C2_every_firing_starts_captures 4000%N s Hc Hm) 0).
Defined.

(** C2 fails as stated: the timer fires at 2000 ms and again at 4000 ms while
    the capture of the first tick is still outstanding.  The second tick is
    not skipped: it starts a second capture for the same camera, and two are
    outstanding. *)
Lemma C2_counterexample_overlapping_ticks :
  let camera := Api.mkCamera 0 "/dev/video0" 20000 "http://localhost:20000/stream" in
  let s1 := Api.step 2000%N Api.interval (Api.boot [camera] ["early-blight"]) in
  let s2 := Api.step 4000%N Api.interval s1 in
  Api.outstanding 0 s1 = 1 ∧
  Api.outstanding 0 s2 = 2 ∧
  length (Api.tasks s2) = 2 ∧
  Api.loop <$> Api.tasks s2 = [0; 1].
Proof. vm_compute. done. Qed.
















(** * Isolation of the cameras inside a tick *)








(** Two cameras in one tick: camera 0 fails to capture, camera 1 delivers a
    frame and gets its prediction.  The record of camera 1 is stored, the
    errors name camera 0 only, and the tick completes after both. *)
Example one_camera_fails_the_other_predicts :
  let cam0 := Api.mkCamera 0 "/dev/video0" 20000 "http://localhost:20000/stream" in
  let cam1 := Api.mkCamera 1 "/dev/video2" 20001 "http://localhost:20001/stream" in
  let s := Api.run [(2000%N, Api.interval);
                    (2300%N, Api.capture_event 1 (child (stdout_data [xff; xd8])));
                    (2350%N, Api.capture_event 1 (child (close (Some 0%Z))));
                    (2400%N, Api.capture_event 0 (child (stderr_data "No such device")));
                    (2410%N, Api.capture_event 0 (child (close (Some 1%Z))));
                    (2900%N, Api.fetch_settled 1
                               (Api.fetch_response 200 (Some (JString "healthy"))))]
                   (Api.boot [cam0; cam1] ["bacterial-disease"; "early-blight"]) in
  Api.cameraId <$> Api.api_predictions s = [1] ∧
  Api.e_cameraId <$> Api.api_errors s = [0; 0] ∧
  Api.e_error <$> Api.api_errors s =
    ["Camera 0 capture failed: Failed to capture frame from MJPEG stream for camera 0. Exit code: 1. Stderr: No such device";
     "Failed to capture frame from MJPEG stream for camera 0. Exit code: 1. Stderr: No such device"] ∧
  Api.quiescent s = true ∧
  Api.currentModelIndex s = 1.
Proof. vm_compute. done. Qed.

(** * The resolution probe *)

Lemma includes_elem res l : Streams.includes res l = true ↔ res ∈ l.
Proof.
  unfold Streams.includes. rewrite existsb_exists. split.
  - intros (x & Hx & He). apply String.eqb_eq in He as <-. by apply list_elem_of_In.
  - intros H. exists res. split; [by apply list_elem_of_In | apply String.eqb_refl].
Qed.

Lemma push_new_elem l res x : x ∈ Streams.push_new l res ↔ x ∈ l ∨ x = res.
Proof.
  unfold Streams.push_new. destruct (Streams.includes res l) eqn:E.
  - apply includes_elem in E. split; [by left | by intros [?| ->]].
  - rewrite elem_of_app, list_elem_of_singleton. done.
Qed.

Lemma push_new_NoDup l res : NoDup l → NoDup (Streams.push_new l res).
Proof.
  intros Hl. unfold Streams.push_new. destruct (Streams.includes res l) eqn:E; [done|].
  apply NoDup_app. split_and!; [done | | apply NoDup_singleton].
  intros x Hx Hr. apply list_elem_of_singleton in Hr as ->.
  apply includes_elem in Hx. congruence.
Qed.

(** Collecting with [push_new]: what is collected is what the lines give,
    each text once. *)
Lemma collect_by_lines (f : string → list string) lines acc :
  let collected := fold_left (λ resolutions line, fold_left Streams.push_new (f line) resolutions)
                             lines acc in
  (NoDup acc → NoDup collected) ∧
  ∀ x, x ∈ collected ↔ x ∈ acc ∨ ∃ line, line ∈ lines ∧ x ∈ f line.
Proof.
  assert (Hin : ∀ xs acc0,
    (NoDup acc0 → NoDup (fold_left Streams.push_new xs acc0)) ∧
    ∀ x, x ∈ fold_left Streams.push_new xs acc0 ↔ x ∈ acc0 ∨ x ∈ xs).
  { induction xs as [|y xs IH]; intros acc0; simpl.
    - split; [done|]. intros x. rewrite elem_of_nil. tauto.
    - destruct (IH (Streams.push_new acc0 y)) as [IH1 IH2]. split.
      + intros Hn. by apply IH1, push_new_NoDup.
      + intros x. rewrite IH2, push_new_elem, elem_of_cons. tauto. }
  revert acc. induction lines as [|line lines IH]; intros acc; simpl.
  - split; [done|]. intros x. split; [by left|].
    intros [?|(l & Hl & _)]; [done|]. by apply elem_of_nil in Hl.
  - destruct (IH (fold_left Streams.push_new (f line) acc)) as [IH1 IH2].
    destruct (Hin (f line) acc) as [Hin1 Hin2]. split.
    + intros Hn. by apply IH1, Hin1.
    + intros x. rewrite IH2, Hin2. split.
      * intros [[?|Hx]|(l & Hl & Hx)]; [by left | |].
        -- right. exists line. split; [apply list_elem_of_here | done].
        -- right. exists l. split; [by apply list_elem_of_further | done].
      * intros [?|(l & Hl & Hx)]; [by left; left|].
        apply elem_of_cons in Hl as [->|Hl]; [by left; right|].
        right. by exists l.
Qed.

Lemma collect_elem isWindows output :
  NoDup (Streams.collect isWindows output) ∧
  ∀ res, res ∈ Streams.collect isWindows output ↔
    ∃ line, line ∈ Streams.split_lines output ∧
      if isWindows then res ∈ Streams.match_all 0 line
      else Streams.match_size_discrete line = Some res.
Proof.
  unfold Streams.collect. destruct isWindows.
  - destruct (collect_by_lines (Streams.match_all 0) (Streams.split_lines output) [])
      as [H1 H2].
    split; [apply H1, NoDup_nil_2|]. intros res. rewrite H2, elem_of_nil. tauto.
  - destruct (collect_by_lines (λ line, option_list (Streams.match_size_discrete line))
                (Streams.split_lines output) []) as [H1 H2].
    assert (Heq : ∀ lines acc,
      fold_left (λ resolutions line,
                   match Streams.match_size_discrete line with
                   | Some res => Streams.push_new resolutions res
                   | None => resolutions
                   end) lines acc =
      fold_left (λ resolutions line,
                   fold_left Streams.push_new
                     (option_list (Streams.match_size_discrete line)) resolutions)
                lines acc).
    { induction lines as [|l lines IH]; intros acc; [done|]. simpl. rewrite IH.
      by destruct (Streams.match_size_discrete l). }
    rewrite Heq. split; [apply H1, NoDup_nil_2|]. intros res. rewrite H2, elem_of_nil.
    split.
    + intros [[]|(l & Hl & Hx)]. exists l. split; [done|].
      destruct (Streams.match_size_discrete l); simpl in Hx.
      * by apply list_elem_of_singleton in Hx as ->.
      * by apply elem_of_nil in Hx.
    + intros (l & Hl & Hx). right. exists l. split; [done|]. rewrite Hx. simpl.
      apply list_elem_of_here.
Qed.

Lemma insert_desc_elem a l x : x ∈ Streams.insert_desc a l ↔ x = a ∨ x ∈ l.
Proof.
  induction l as [|b l IH]; simpl.
  - rewrite list_elem_of_singleton, elem_of_nil. tauto.
  - destruct (_ <? _)%N; rewrite !elem_of_cons, ?IH; tauto.
Qed.

Lemma sort_desc_elem l x : x ∈ Streams.sort_desc l ↔ x ∈ l.
Proof.
  induction l as [|a l IH]; simpl; [done|].
  rewrite insert_desc_elem, elem_of_cons, IH. done.
Qed.

Lemma insert_desc_sorted a l :
  StronglySorted (λ x y, (Streams.pixels y ≤ Streams.pixels x)%N) l →
  StronglySorted (λ x y, (Streams.pixels y ≤ Streams.pixels x)%N) (Streams.insert_desc a l).
Proof.
  induction 1 as [|b l Hl IH Hb]; simpl.
  - repeat constructor.
  - destruct (Streams.pixels a <? Streams.pixels b)%N eqn:E.
    + apply N.ltb_lt in E. constructor; [done|].
      apply Forall_forall. intros x Hx. apply insert_desc_elem in Hx as [->|Hx]; [lia|].
      by apply (proj1 (Forall_forall _ _) Hb).
    + apply N.ltb_ge in E. constructor; [by constructor|].
      constructor; [done|]. eapply Forall_impl; [exact Hb|]. simpl. intros x Hx. lia.
Qed.

Lemma sort_desc_sorted l :
  StronglySorted (λ x y, (Streams.pixels y ≤ Streams.pixels x)%N) (Streams.sort_desc l).
Proof.
  induction l as [|a l IH]; simpl; [constructor | by apply insert_desc_sorted].
Qed.

(** In a list ranked by pixel count, the first entry that passes a test has
    the most pixels among all that pass. *)
Lemma find_first_is_largest (p : Streams.Candidate → bool) l m :
  StronglySorted (λ x y, (Streams.pixels y ≤ Streams.pixels x)%N) l →
  List.find p l = Some m →
  m ∈ l ∧ p m = true ∧ ∀ c, c ∈ l → p c = true → (Streams.pixels c ≤ Streams.pixels m)%N.
Proof.
  induction 1 as [|a l Hl IH Ha]; simpl; [done|].
  destruct (p a) eqn:Ep.
  - intros [= <-]. split_and!; [apply list_elem_of_here | done |].
    intros c Hc _. apply elem_of_cons in Hc as [->|Hc]; [lia|].
    by apply (proj1 (Forall_forall _ _) Ha).
  - intros Hf. destruct (IH Hf) as (H1 & H2 & H3).
    split_and!; [by apply list_elem_of_further | done |].
    intros c Hc Hpc. apply elem_of_cons in Hc as [->|Hc]; [congruence | by apply H3].
Qed.

Lemma probe_on_settled isWindows cb p :
  is_pending (Streams.resolved p) = false →
  Streams.resolved (Streams.detectCameraResolution_on isWindows cb p) = Streams.resolved p.
Proof.
  intros Hp. destruct cb as [[data|data|code|message]|]; simpl; try done;
    by apply resolve_settled.
Qed.

Lemma probe_fold_settled isWindows (cbs : list (N * Callback)) p :
  is_pending (Streams.resolved p) = false →
  Streams.resolved
    (fold_left (λ p cb, Streams.detectCameraResolution_on isWindows cb.2 p) cbs p)
  = Streams.resolved p.
Proof.
  revert p. induction cbs as [|cb cbs IH]; intros p Hp; [done|].
  simpl. rewrite IH; by rewrite probe_on_settled.
Qed.

Lemma probe_times_out isWindows deadline es p :
  Streams.resolved p = Pending →
  Streams.unsettled_until deadline es = true →
  Streams.resolved
    (fold_left (λ p cb, Streams.detectCameraResolution_on isWindows cb.2 p)
               (schedule deadline es) p)
  = Resolved "1280x720".
Proof.
  revert p. induction es as [|[t e] es IH]; intros p Hp Hq.
  - simpl. by rewrite Hp.
  - simpl in Hq. apply andb_prop in Hq as [He Hq]. cbn [schedule].
    destruct (t <? deadline)%N eqn:Et; simpl in He; rewrite ?Et in He.
    + cbn [fold_left]. apply IH; [|done].
      destruct e; try discriminate He; simpl; done.
    + cbn [fold_left]. rewrite probe_fold_settled; simpl; by rewrite Hp.
Qed.

(** C8, as the code has it.  The texts collected from the probe's output are
    pairwise distinct.  On Windows they are all the matches of three or four
    digits, [x], three or four digits, in every line; elsewhere they are, per
    line, the first such text that directly follows ["Size: Discrete "], and
    nothing else.  Among the collected texts the one chosen is within
    1920 by 1080 and has the most pixels of those that are; when none is,
    the choice is 1280x720.  While the probe is pending, its exit resolves it
    with that choice, and a spawn error or the timer resolve it with
    1280x720; a probe that has neither exited nor failed by 5000 ms ends with
    1280x720. *)
Theorem C8_resolution_negotiation isWindows output :
  let candidates := Streams.candidate <$> Streams.collect isWindows output in
  let chosen := Streams.selectedRes isWindows output in
  NoDup (Streams.collect isWindows output) ∧
  (∀ res, res ∈ Streams.collect isWindows output ↔
     ∃ line, line ∈ Streams.split_lines output ∧
       if isWindows then res ∈ Streams.match_all 0 line
       else Streams.match_size_discrete line = Some res) ∧
  ((∀ c, c ∈ candidates → Streams.within_1080p c = false) → chosen = "1280x720") ∧
  (∀ c, c ∈ candidates → Streams.within_1080p c = true →
     ∃ m, m ∈ candidates ∧ chosen = Streams.res m ∧ Streams.within_1080p m = true ∧
          ∀ c', c' ∈ candidates → Streams.within_1080p c' = true →
                (Streams.pixels c' ≤ Streams.pixels m)%N) ∧
  (∀ p, Streams.resolved p = Pending →
     (∀ code, Streams.resolved (Streams.detectCameraResolution_on isWindows (child (close code)) p)
              = Resolved (Streams.selectedRes isWindows (Streams.output p))) ∧
     (∀ message, Streams.resolved (Streams.detectCameraResolution_on isWindows (child (error message)) p)
                 = Resolved "1280x720") ∧
     Streams.resolved (Streams.detectCameraResolution_on isWindows timer p) = Resolved "1280x720" ∧
     Streams.killed (Streams.detectCameraResolution_on isWindows timer p) = true) ∧
  (∀ es, Streams.unsettled_until Streams.PROBE_TIMEOUT_MS es = true →
     Streams.resolved (Streams.detectCameraResolution_run isWindows es) = Resolved "1280x720").
Proof.
  intros candidates chosen.
  destruct (collect_elem isWindows output) as [Hnd Hel].
  assert (Hfind : ∀ x, x ∈ Streams.sort_desc candidates ↔ x ∈ candidates).
  { intros x. apply sort_desc_elem. }
  split_and!; [done | done | | | |].
  - intros Hnone. subst chosen. unfold Streams.selectedRes. fold candidates.
    change (map Streams.candidate (Streams.collect isWindows output)) with candidates.
    destruct (List.find _ _) as [m|] eqn:Ef; [|done].
    apply find_some in Ef as [Hm Hw]. apply list_elem_of_In, Hfind in Hm.
    rewrite (Hnone m Hm) in Hw. done.
  - intros c Hc Hw. subst chosen. unfold Streams.selectedRes.
    change (map Streams.candidate (Streams.collect isWindows output)) with candidates.
    destruct (List.find _ _) as [m|] eqn:Ef.
    + destruct (find_first_is_largest _ _ _ (sort_desc_sorted candidates) Ef)
        as (H1 & H2 & H3).
      exists m. split_and!; [by apply Hfind | done | done |].
      intros c' Hc' Hw'. apply H3; [by apply Hfind | done].
    + apply Hfind, list_elem_of_In in Hc.
      rewrite (find_none _ _ Ef c Hc) in Hw. done.
  - intros p Hp. simpl. rewrite Hp. done.
  - intros es Hes. by apply probe_times_out.
Qed.

Lemma C8_fallback_witness :
  Streams.selectedRes true "  pixel_format=yuyv422  min s=3840x2160 fps=30 max s=3840x2160 fps=30"
  = "1280x720".
Proof.
  apply (proj1 (proj2 (proj2 (C8_resolution_negotiation true
           "  pixel_format=yuyv422  min s=3840x2160 fps=30 max s=3840x2160 fps=30")))).
  intros c Hc. apply list_elem_of_singleton in Hc as ->. reflexivity.
Defined.

(** C8 fails as stated.  Off Windows the probe keeps only what follows
    ["Size: Discrete "]: the format listing below holds 1920x1080 and
    1280x720, and a second one holds 1920x1080 and 640x480, yet nothing is
    collected from either and both end with the fallback 1280x720, which the
    second listing does not even contain. *)
Lemma C8_counterexample_listing_without_prefix :
  let listing := "[video4linux2,v4l2 @ 0x55d] Compressed: mjpeg : Motion-JPEG : 1920x1080 1280x720" in
  let listing' := "[video4linux2,v4l2 @ 0x55d] Raw : yuyv422 : YUYV 4:2:2 : 1920x1080 640x480" in
  Streams.collect false listing = [] ∧
  Streams.resolved
    (Streams.detectCameraResolution_run false
       [(120%N, stderr_data listing); (130%N, close (Some 1%Z))]) = Resolved "1280x720" ∧
  Streams.resolved
    (Streams.detectCameraResolution_run false
       [(120%N, stderr_data listing'); (130%N, close (Some 1%Z))]) = Resolved "1280x720".
Proof. vm_compute. done. Qed.

(** The two probes of the specification's test list, on Windows, and a
    listing in the form the other branch reads. *)
Example windows_picks_1080p :
  Streams.selectedRes true "  vcodec=mjpeg  min s=1280x720 fps=30 max s=1280x720 fps=30
  vcodec=mjpeg  min s=1920x1080 fps=30 max s=1920x1080 fps=30" = "1920x1080".
Proof. reflexivity. Qed.

Example windows_4k_only_falls_back :
  Streams.selectedRes true "  vcodec=mjpeg  min s=3840x2160 fps=30 max s=3840x2160 fps=30"
  = "1280x720".
Proof. reflexivity. Qed.

Example size_discrete_lines_are_read :
  Streams.selectedRes false "	Size: Discrete 640x480
	Size: Discrete 3840x2160
	Size: Discrete 1920x1080
	Size: Discrete 1280x720" = "1920x1080".
Proof. reflexivity. Qed.

(** * The error buffer and the bookkeeping of the server *)

Lemma take_cons_take {A} n (x : A) l : take (S n) (x :: take (S n) l) = take (S n) (x :: l).
Proof.
  cbn [take]. f_equal. rewrite take_take. f_equal. lia.
Qed.

Lemma addSystemError_twice a e1 e2 now l :
  Api.addSystemError a e1 now (Api.addSystemError a e2 now l) =
  take 50 (Api.mkErrorEntry a e1 now :: Api.mkErrorEntry a e2 now :: l).
Proof.
  rewrite !addSystemError_take. rewrite take_cons_take. done.
Qed.

(** A callback of a capture leaves the buffer alone or adds one entry for
    its camera, stamped with the time of the callback. *)
Lemma captureFrame_on_errors camera now cb c errs :
  (Api.captureFrame_on camera now cb c errs).2 = errs ∨
  ∃ message,
    (Api.captureFrame_on camera now cb c errs).2 =
    Api.addSystemError (Api.id camera) message now errs.
Proof.
  destruct cb as [[data|data|code|message]|]; cbn; eauto.
  - destruct (_ && _); cbn; eauto.
  - destruct (negb _); cbn; eauto.
Qed.


Lemma step_systemErrors_added now ev s :
  length (Api.systemErrors s) ≤ 50 →
  ∃ added,
    length added ≤ 2 ∧
    Forall (λ e, Api.e_timestamp e = now) added ∧
    Api.systemErrors (Api.step now ev s) = take 50 (added ++ Api.systemErrors s)%list.
Proof.
  intros Hlen.
  assert (Hsame : take 50 ([] ++ Api.systemErrors s)%list = Api.systemErrors s)
    by (by rewrite take_ge).
  destruct ev as [|i cb|i r]; cbn [Api.step].
  - exists []. split_and!; [cbn; lia|done|]. rewrite Hsame.
    unfold Api.predictionLoop. by destruct (_ || _).
  - on_capture_cases i s; [..|exists []; by split_and!; [cbn; lia|done|]];
      after_return_simpl; cbn [Api.systemErrors Api.set_tasks Api.set_systemErrors];
      subst r;
      destruct (captureFrame_on_errors (Api.camera t) now cb (Api.capture t)
                  (Api.systemErrors s)) as [->|[m ->]];
      rewrite ?addSystemError_twice, ?addSystemError_take;
      lazymatch goal with
      | |- context [take 50 (?a :: ?b :: Api.systemErrors s)] => exists [a; b]
      | |- context [take 50 (?a :: Api.systemErrors s)] => exists [a]
      | |- _ => exists []
      end;
      (split_and!; [cbn; lia|by repeat constructor|by rewrite ?Hsame]).
  - exists []. split_and!; [cbn; lia|done|]. rewrite Hsame.
    apply sendPrediction_resume_systemErrors.
Qed.




(** X3 (the close listener of captureFrame, PredictionLog.tsx lines 338-358):
    the listener adds its entry also when the promise is already settled.
    When the child of a capture that has failed (by the timeout, which kills
    it, or by a spawn error) closes without a success exit and a frame, the
    capture error is entered once more, and nothing else in the server
    changes: one timed-out capture leaves three entries. *)
Theorem X3_close_of_a_settled_capture_is_entered now i code s t :
  Api.tasks s !! i = Some t →
  is_pending (Api.outcome (Api.capture t)) = false →
  code ≠ Some 0%Z ∨ Api.imageBuffer (Api.capture t) = [] →
  Api.step now (Api.capture_event i (child (close code))) s =
  Api.set_systemErrors
    (Api.addSystemError (Api.id (Api.camera t))
       (Api.captureFailedMsg (Api.camera t) code (Api.stderrOutput (Api.capture t)))
       now (Api.systemErrors s)) s.
Proof.
  intros Ht Hp Hfail. cbn [Api.step]. unfold Api.on_capture. rewrite Ht. cbv zeta.
  assert (Hc : bool_decide (code = Some 0%Z) && Api.hasData (Api.capture t)
               && (0 <? length (Api.imageBuffer (Api.capture t))) = false).
  { destruct Hfail as [Hcode|Hbuf].
    - by rewrite bool_decide_eq_false_2.
    - rewrite Hbuf. cbn. by rewrite andb_false_r. }
  cbn [Api.captureFrame_on]. rewrite Hc. cbn [fst snd].
  assert (Hsame : Api.set_outcome
                    (reject (Api.captureFailedMsg (Api.camera t) code
                               (Api.stderrOutput (Api.capture t)))
                            (Api.outcome (Api.capture t))) (Api.capture t) = Api.capture t).
  { rewrite reject_settled by done. by destruct (Api.capture t). }
  rewrite Hsame.
  assert (Hid : ∀ st, st = Api.stage t →
            <[i := Api.set_task t (Api.capture t) st]> (Api.tasks s) = Api.tasks s).
  { intros st ->. apply list_insert_id. rewrite Ht. by destruct t. }
  destruct (Api.outcome (Api.capture t)) eqn:Ho; [done|..];
    destruct (Api.stage t) eqn:Hst; rewrite Hid by done;
    by destruct s.
Qed.

Lemma X3_three_entries_witness :
  let camera := Api.mkCamera 0 "/dev/video0" 20000 "http://localhost:20000/stream" in
  let s := Api.run [(2000%N, Api.interval); (12000%N, Api.capture_event 0 timer)]
             (Api.boot [camera] ["early-blight"]) in
  Api.e_error <$>
    Api.api_errors (Api.step 12040%N (Api.capture_event 0 (child (close None))) s) =
  [ "Failed to capture frame from MJPEG stream for camera 0. Exit code: null. Stderr: ";
    "Camera 0 capture failed: Timeout capturing frame from camera 0";
    "Timeout capturing frame from camera 0" ].
Proof.
  intros camera s.
  pose proof (X3_close_of_a_settled_capture_is_entered 12040%N 0 None s
                (Api.mkTask 0 camera (Some "early-blight")
                   {| Api.imageBuffer := []; Api.hasData := false; Api.stderrOutput := "";
                      Api.outcome := Rejected "Timeout capturing frame from camera 0";
                      Api.killed := true |}
                   (Api.Returned None))
                eq_refl eq_refl (or_intror eq_refl))
    as H.
  rewrite H. reflexivity.
Defined.

Lemma step_without_tasks now ev s :
  Api.tasks s = [] →
  Api.cameras s = [] ∨ Api.currentModels s = [] →
  Api.step now ev s = s.
Proof.
  intros Hts Hguard. destruct ev as [|i cb|i r]; cbn [Api.step].
  - unfold Api.predictionLoop. destruct Hguard as [->| ->]; cbn; [done|].
    by rewrite orb_true_r.
  - unfold Api.on_capture. by rewrite Hts.
  - unfold Api.sendPrediction_resume. by rewrite Hts.
Qed.

Lemma run_without_tasks evs s :
  Api.tasks s = [] →
  Api.cameras s = [] ∨ Api.currentModels s = [] →
  Api.run evs s = s.
Proof.
  intros Hts Hguard. induction evs as [|[now ev] evs IH]; [done|].
  cbn [Api.run]. by rewrite step_without_tasks.
Qed.

(** X4 (the guard of predictionLoop, PredictionLog.tsx lines 422-425): with
    no camera detected, or with an empty roster, nothing ever runs: whatever
    the event loop delivers, timer firings included, the server stays in the
    state initialize left it in, with no task, no prediction and no error. *)
Theorem X4_nothing_runs_without_cameras_or_models cameras models evs :
  cameras = [] ∨ models = [] →
  Api.run evs (Api.boot cameras models) = Api.boot cameras models.
Proof.
  intros Hguard. by apply run_without_tasks.
Qed.

Lemma X4_empty_roster_witness :
  let camera := Api.mkCamera 0 "/dev/video0" 20000 "http://localhost:20000/stream" in
  Api.run [(2000%N, Api.interval); (2300%N, Api.capture_event 0 timer); (4000%N, Api.interval)]
    (Api.boot [camera] []) = Api.boot [camera] [].
Proof.
  intros camera. apply X4_nothing_runs_without_cameras_or_models. by right.
Defined.

(** What a step keeps true of the tasks and the records: they name cameras
    of [cameras s] and models of [currentModels s], and the cursor stays
    inside the roster. *)
Lemma step_provenance now ev s :
  Api.currentModelIndex s < length (Api.currentModels s) →
  Forall (λ t, Api.camera t ∈ Api.cameras s ∧
               ∃ m, Api.currentModel t = Some m ∧ m ∈ Api.currentModels s) (Api.tasks s) →
  Forall (λ p, (∃ c, c ∈ Api.cameras s ∧ Api.cameraId p = Api.id c) ∧
               ∃ m, Api.model p = Some m ∧ m ∈ Api.currentModels s) (Api.predictions s) →
  Forall (λ e, ∃ c, c ∈ Api.cameras s ∧ Api.e_cameraId e = Api.id c) (Api.systemErrors s) →
  let s' := Api.step now ev s in
  Api.currentModelIndex s' < length (Api.currentModels s) ∧
  Forall (λ t, Api.camera t ∈ Api.cameras s ∧
               ∃ m, Api.currentModel t = Some m ∧ m ∈ Api.currentModels s) (Api.tasks s') ∧
  Forall (λ p, (∃ c, c ∈ Api.cameras s ∧ Api.cameraId p = Api.id c) ∧
               ∃ m, Api.model p = Some m ∧ m ∈ Api.currentModels s) (Api.predictions s') ∧
  Forall (λ e, ∃ c, c ∈ Api.cameras s ∧ Api.e_cameraId e = Api.id c) (Api.systemErrors s').
Proof.
  intros Hcur Hts Hps Hes s'. subst s'.
  assert (Hmod : (Api.currentModelIndex s + 1) mod length (Api.currentModels s)
                 < length (Api.currentModels s)) by (apply Nat.mod_upper_bound; lia).
  assert (Hafter : ∀ n s0, Api.currentModels s0 = Api.currentModels s →
            Api.currentModelIndex s0 = Api.currentModelIndex s →
            Api.currentModelIndex (Api.after_return n s0) < length (Api.currentModels s)).
  { intros n s0 E1 E2. unfold Api.after_return. destruct (Api.all_settled _ _); cbn.
    - by rewrite E1, E2.
    - by rewrite E2. }
  destruct ev as [|i cb|i r]; cbn [Api.step].
  - unfold Api.predictionLoop. destruct (_ || _); [done|]. cbn. split_and!; try done.
    apply Forall_app. split; [done|]. apply Forall_forall. intros t Ht.
    apply list_elem_of_fmap in Ht as (c & -> & Hc). cbn. split; [done|].
    destruct (lookup_lt_is_Some_2 (Api.currentModels s) (Api.currentModelIndex s) Hcur)
      as [m Hm].
    exists m. split; [done|]. by eapply list_elem_of_lookup_2.
  - on_capture_cases i s; [..|done];
      (assert (Hti := Forall_lookup_1 _ _ _ _ Hts Ht); cbn beta in Hti);
      (assert (Herr : ∀ m, Forall (λ e, ∃ c, c ∈ Api.cameras s ∧ Api.e_cameraId e = Api.id c)
                             (Api.addSystemError (Api.id (Api.camera t)) m now
                                (Api.systemErrors s)))
        by (intros m; rewrite addSystemError_take; apply Forall_take; constructor;
            [exists (Api.camera t); by destruct Hti|done]));
      (assert (Hr2 : Forall (λ e, ∃ c, c ∈ Api.cameras s ∧ Api.e_cameraId e = Api.id c) r.2)
        by (subst r;
            destruct (captureFrame_on_errors (Api.camera t) now cb (Api.capture t)
                        (Api.systemErrors s)) as [->|[m ->]]; [done|apply Herr]));
      (split; [try apply Hafter; done|]);
      after_return_simpl;
      cbn [Api.systemErrors Api.tasks Api.predictions Api.set_tasks Api.set_systemErrors];
      (split_and!; [by apply Forall_insert|done|]);
      try done;
      rewrite addSystemError_take; apply Forall_take; constructor; [|done];
      exists (Api.camera t); by destruct Hti.
  - sendPrediction_resume_cases i r s; try done;
      (assert (Hti := Forall_lookup_1 _ _ _ _ Hts Ht); cbn beta in Hti);
      (split; [try apply Hafter; done|]);
      after_return_simpl;
      cbn [Api.systemErrors Api.tasks Api.predictions Api.set_tasks Api.set_predictions];
      (split_and!; [by apply Forall_insert| |done]);
      try done.
    rewrite record_prediction_take. apply Forall_take. constructor; [|done].
    cbn. destruct Hti as [Hc Hm]. split; [by exists (Api.camera t)|done].
Qed.

Lemma run_provenance cameras roster evs : ∀ s0,
  Api.cameras s0 = cameras → Api.currentModels s0 = roster →
  Api.currentModelIndex s0 < length roster →
  Forall (λ t, Api.camera t ∈ cameras ∧
               ∃ m, Api.currentModel t = Some m ∧ m ∈ roster) (Api.tasks s0) →
  Forall (λ p, (∃ c, c ∈ cameras ∧ Api.cameraId p = Api.id c) ∧
               ∃ m, Api.model p = Some m ∧ m ∈ roster) (Api.predictions s0) →
  Forall (λ e, ∃ c, c ∈ cameras ∧ Api.e_cameraId e = Api.id c) (Api.systemErrors s0) →
  Api.currentModelIndex (Api.run evs s0) < length roster ∧
  Forall (λ p, (∃ c, c ∈ cameras ∧ Api.cameraId p = Api.id c) ∧
               ∃ m, Api.model p = Some m ∧ m ∈ roster)
         (Api.predictions (Api.run evs s0)) ∧
  Forall (λ e, ∃ c, c ∈ cameras ∧ Api.e_cameraId e = Api.id c)
         (Api.systemErrors (Api.run evs s0)).
Proof.
  induction evs as [|[now ev] evs IH]; intros s0 Hc Hm Hcur Hts Hps Hes; [done|].
  cbn [Api.run]. subst cameras roster.
  destruct (step_static now ev s0) as [Hc' Hm'].
  destruct (step_provenance now ev s0 Hcur Hts Hps Hes) as (H1 & H2 & H3 & H4).
  by apply IH.
Qed.

(** X5 (predictionLoop and sendPrediction, PredictionLog.tsx lines 380-445):
    in every state the server reaches, the cursor is inside the roster (so
    the model of a tick is never undefined), every stored prediction names
    a detected camera and a model of the roster, and every error entry names
    a detected camera. *)
Theorem X5_records_name_cameras_and_models cameras models evs :
  let s := Api.run evs (Api.boot cameras models) in
  (Api.currentModelIndex s < length models ∨ models = [] ∧ Api.currentModelIndex s = 0) ∧
  Forall (λ p, (∃ c, c ∈ cameras ∧ Api.cameraId p = Api.id c) ∧
               ∃ m, Api.model p = Some m ∧ m ∈ models) (Api.api_predictions s) ∧
  Forall (λ e, ∃ c, c ∈ cameras ∧ Api.e_cameraId e = Api.id c) (Api.api_errors s).
Proof.
  intros s. subst s. destruct models as [|m0 models].
  { rewrite run_without_tasks by (done || by right). cbn.
    split_and!; [by right|done|done]. }
  destruct (run_provenance cameras (m0 :: models) evs (Api.boot cameras (m0 :: models)))
    as (H1 & H2 & H3); try done.
  - cbn. lia.
  - split_and!; [by left|done|done].
Qed.

Lemma step_predictions_stamped now ev s :
  Api.predictions (Api.step now ev s) = Api.predictions s ∨
  ∃ p, Api.timestamp p = now ∧
       Api.predictions (Api.step now ev s) = take 100 (p :: Api.predictions s).
Proof.
  destruct ev as [|i cb|i r]; cbn [Api.step].
  - left. unfold Api.predictionLoop. by destruct (_ || _).
  - left. on_capture_cases i s; by after_return_simpl.
  - sendPrediction_resume_cases i r s; after_return_simpl; auto.
    right. eexists. split; [|apply record_prediction_take]. done.
Qed.

Lemma StronglySorted_take_of {A} (R : A → A → Prop) n l :
  StronglySorted R l → StronglySorted R (take n l).
Proof.
  intros Hl. revert n. induction Hl as [|x l Hl IH Hx]; intros [|n]; cbn; try constructor.
  - apply IH.
  - by apply Forall_take.
Qed.

Lemma newest_first_add {A} (stamp : A → N) now added l :
  Forall (λ e, stamp e = now) added →
  Forall (λ e, (stamp e ≤ now)%N) l →
  StronglySorted (λ e f, (stamp f ≤ stamp e)%N) l →
  StronglySorted (λ e f, (stamp f ≤ stamp e)%N) (added ++ l)%list ∧
  Forall (λ e, (stamp e ≤ now)%N) (added ++ l)%list.
Proof.
  intros Hadd Hl Hs. induction Hadd as [|e added He Hadd [IH1 IH2]]; [done|].
  cbn. split.
  - constructor; [done|]. rewrite He. done.
  - constructor; [lia|done].
Qed.

Lemma step_newest_first now ev s :
  length (Api.systemErrors s) ≤ 50 →
  Forall (λ p, (Api.timestamp p ≤ now)%N) (Api.predictions s) →
  Forall (λ e, (Api.e_timestamp e ≤ now)%N) (Api.systemErrors s) →
  StronglySorted (λ p q, (Api.timestamp q ≤ Api.timestamp p)%N) (Api.predictions s) →
  StronglySorted (λ e f, (Api.e_timestamp f ≤ Api.e_timestamp e)%N) (Api.systemErrors s) →
  let s' := Api.step now ev s in
  length (Api.systemErrors s') ≤ 50 ∧
  Forall (λ p, (Api.timestamp p ≤ now)%N) (Api.predictions s') ∧
  Forall (λ e, (Api.e_timestamp e ≤ now)%N) (Api.systemErrors s') ∧
  StronglySorted (λ p q, (Api.timestamp q ≤ Api.timestamp p)%N) (Api.predictions s') ∧
  StronglySorted (λ e f, (Api.e_timestamp f ≤ Api.e_timestamp e)%N) (Api.systemErrors s').
Proof.
  intros Hlen Hps Hes Sps Ses s'. subst s'.
  destruct (step_systemErrors_added now ev s Hlen) as (added & _ & Hadd & ->).
  destruct (newest_first_add Api.e_timestamp now added _ Hadd Hes Ses) as [E1 E2].
  assert (P : Forall (λ p, (Api.timestamp p ≤ now)%N) (Api.predictions (Api.step now ev s)) ∧
              StronglySorted (λ p q, (Api.timestamp q ≤ Api.timestamp p)%N)
                (Api.predictions (Api.step now ev s))).
  { destruct (step_predictions_stamped now ev s) as [->|(p & Hp & ->)]; [done|].
    destruct (newest_first_add Api.timestamp now [p] _ (Forall_cons_2 _ _ _ Hp (Forall_nil_2 _)) Hps Sps)
      as [P1 P2].
    split; [by apply Forall_take|by apply StronglySorted_take_of]. }
  destruct P as [P1 P2]. split_and!; try done.
  - rewrite length_take. lia.
  - by apply Forall_take.
  - by apply StronglySorted_take_of.
Qed.

(** X6 (sendPrediction and addSystemError, PredictionLog.tsx lines 203-213
    and 403-413; the routes of lines 455-475 send the arrays as they are):
    when the event loop delivers its events in the order of their times,
    the predictions and the error entries are always held newest first: no
    record is followed by one with a later timestamp. *)
Theorem X6_records_are_newest_first cameras models evs :
  Sorted N.le (evs.*1) →
  let s := Api.run evs (Api.boot cameras models) in
  StronglySorted (λ p q, (Api.timestamp q ≤ Api.timestamp p)%N) (Api.api_predictions s) ∧
  StronglySorted (λ e f, (Api.e_timestamp f ≤ Api.e_timestamp e)%N) (Api.api_errors s).
Proof.
  intros Hsorted s. subst s.
  apply Sorted_StronglySorted in Hsorted; [|intros x y z; apply N.le_trans].
  assert (Hgen : ∀ lo s,
            Forall (λ t, (lo ≤ t)%N) (evs.*1) →
            length (Api.systemErrors s) ≤ 50 →
            Forall (λ p, (Api.timestamp p ≤ lo)%N) (Api.predictions s) →
            Forall (λ e, (Api.e_timestamp e ≤ lo)%N) (Api.systemErrors s) →
            StronglySorted (λ p q, (Api.timestamp q ≤ Api.timestamp p)%N) (Api.predictions s) →
            StronglySorted (λ e f, (Api.e_timestamp f ≤ Api.e_timestamp e)%N)
              (Api.systemErrors s) →
            StronglySorted (λ p q, (Api.timestamp q ≤ Api.timestamp p)%N)
              (Api.predictions (Api.run evs s)) ∧
            StronglySorted (λ e f, (Api.e_timestamp f ≤ Api.e_timestamp e)%N)
              (Api.systemErrors (Api.run evs s))).
  { induction evs as [|[now ev] evs IH]; intros lo s Hlo Hlen Hps Hes Sps Ses; [done|].
    cbn [Api.run]. cbn in Hsorted, Hlo.
    apply StronglySorted_inv in Hsorted as [Hsorted Hnow].
    apply Forall_cons in Hlo as [Hlo _].
    destruct (step_newest_first now ev s) as (H1 & H2 & H3 & H4 & H5); try done.
    - eapply Forall_impl; [exact Hps|]. cbn. intros; lia.
    - eapply Forall_impl; [exact Hes|]. cbn. intros; lia.
    - by apply (IH Hsorted now). }
  apply (Hgen 0%N); cbn; try done; try constructor.
  - apply Forall_forall. intros; lia.
  - lia.
Qed.

Lemma X6_newest_first_witness :
  let camera := Api.mkCamera 0 "/dev/video0" 20000 "http://localhost:20000/stream" in
  let evs := [(2000%N, Api.interval);
              (2400%N, Api.capture_event 0 (child (stdout_data [xff; xd8])));
              (2500%N, Api.capture_event 0 (child (close (Some 0%Z))));
              (2900%N, Api.fetch_settled 0 (Api.fetch_response 200 (Some (JString "healthy"))));
              (4000%N, Api.interval);
              (4300%N, Api.capture_event 1 (child (close (Some 1%Z))))] in
  let s := Api.run evs (Api.boot [camera] ["early-blight"]) in
  Sorted N.le (evs.*1) ∧
  StronglySorted (λ e f, (Api.e_timestamp f ≤ Api.e_timestamp e)%N) (Api.api_errors s).
Proof.
  intros camera evs s.
  assert (Hsorted : Sorted N.le (evs.*1)) by (repeat constructor; by vm_compute).
  split; [done|].
  exact (proj2 (X6_records_are_newest_first [camera] ["early-blight"] evs Hsorted)).
Defined.

Lemma filter_length_insert {A} (f : A → bool) l i x y :
  l !! i = Some y →
  length (List.filter f (<[i:=x]> l)) + (if f y then 1 else 0) =
  length (List.filter f l) + (if f x then 1 else 0).
Proof.
  revert i. induction l as [|a l IH]; intros [|i] Hi; try done.
  - cbn in Hi. injection Hi as ->. cbn. destruct (f x), (f y); cbn; lia.
  - cbn in Hi. cbn. specialize (IH i Hi). destruct (f a); cbn; [f_equal|]; exact IH.
Qed.

Lemma step_counts_predictions now ev s :
  length (Api.predictions s) = 100 `min` Api.completed_predictions s →
  length (Api.predictions (Api.step now ev s)) =
  100 `min` Api.completed_predictions (Api.step now ev s).
Proof.
  unfold Api.completed_predictions. intros Hinv.
  set (f := λ t, match Api.stage t with Api.Returned (Some _) => true | _ => false end) in *.
  destruct ev as [|i cb|i r]; cbn [Api.step].
  - unfold Api.predictionLoop. destruct (_ || _); [done|].
    cbn [Api.tasks Api.predictions].
    rewrite List.filter_app, length_app.
    replace (List.filter f (map _ (Api.cameras s))) with (@nil Api.Task);
      [cbn [length]; lia|].
    generalize (Api.cameras s) as cs. by induction cs.
  - on_capture_cases i s; [..|done]; after_return_simpl;
      cbn [Api.tasks Api.predictions Api.set_tasks Api.set_systemErrors];
      match goal with
      | |- context [<[i := ?x]> (Api.tasks s)] =>
          pose proof (filter_length_insert f (Api.tasks s) i x t Ht) as Hf
      end;
      subst f; cbn [Api.stage Api.set_task] in Hf; rewrite Hst in Hf;
      try (destruct returned as [?|]); lia.
  - sendPrediction_resume_cases i r s; try done; after_return_simpl;
      cbn [Api.tasks Api.predictions Api.set_tasks Api.set_predictions];
      match goal with
      | |- context [<[i := ?x]> (Api.tasks s)] =>
          pose proof (filter_length_insert f (Api.tasks s) i x t Ht) as Hf
      end;
      subst f; cbn [Api.stage Api.set_task] in Hf; rewrite Hst in Hf;
      rewrite ?record_prediction_take, ?length_take; cbn [length]; lia.
Qed.

(** X7 (sendPrediction, PredictionLog.tsx lines 403-413, and the status
    route, lines 463-471): totalPredictions is the number of predictions
    stored since the start, up to 100, and exactly 100 from then on: in
    every state the server reaches it equals the smaller of 100 and the
    number of arrow functions that returned a prediction. *)
Theorem X7_totalPredictions_counts_up_to_100 cameras models evs uptime :
  let s := Api.run evs (Api.boot cameras models) in
  Api.totalPredictions (Api.api_status uptime s) = 100 `min` Api.completed_predictions s.
Proof.
  intros s. subst s. cbn [Api.api_status Api.totalPredictions].
  assert (Hgen : ∀ s, length (Api.predictions s) = 100 `min` Api.completed_predictions s →
            length (Api.predictions (Api.run evs s)) =
            100 `min` Api.completed_predictions (Api.run evs s)).
  { induction evs as [|[now ev] evs IH]; intros s Hs; [done|].
    cbn [Api.run]. apply IH. by apply step_counts_predictions. }
  by apply Hgen.
Qed.

Lemma step_stage_agrees now ev s :
  Forall Api.stage_agrees (Api.tasks s) →
  Forall Api.stage_agrees (Api.tasks (Api.step now ev s)).
Proof.
  intros Hts. destruct ev as [|i cb|i r]; cbn [Api.step].
  - unfold Api.predictionLoop. destruct (_ || _); [done|]. cbn [Api.tasks].
    apply Forall_app. split; [done|]. apply Forall_forall. intros t Ht.
    by apply list_elem_of_fmap in Ht as (c & -> & Hc).
  - on_capture_cases i s; [..|done]; after_return_simpl;
      cbn [Api.tasks Api.set_tasks Api.set_systemErrors];
      (apply Forall_insert; [done|]);
      pose proof (Forall_lookup_1 _ _ _ _ Hts Ht) as Hti;
      unfold Api.stage_agrees in Hti |- *; cbn [Api.stage Api.capture Api.set_task];
      rewrite Hst in Hti;
      try (destruct returned as [?|]);
      first
        [ congruence
        | by rewrite Hold in Hti; destruct_and?
        | by rewrite Hold in Hti; destruct Hti as (? & ? & ?)
        | by rewrite Hnew
        | split; [done|];
          eapply (captureFrame_on_resolved (Api.camera t) now cb (Api.capture t)
                    (Api.systemErrors s)); [by rewrite Hold|exact Hnew]
        | assert (Hsame : Api.outcome r.1 = Api.outcome (Api.capture t))
            by (apply captureFrame_on_settled; by rewrite Hold);
          by rewrite Hsame ].
  - sendPrediction_resume_cases i r s; try done; after_return_simpl;
      cbn [Api.tasks Api.set_tasks Api.set_predictions];
      (apply Forall_insert; [done|]);
      pose proof (Forall_lookup_1 _ _ _ _ Hts Ht) as Hti;
      unfold Api.stage_agrees in Hti |- *; cbn [Api.stage Api.capture Api.set_task];
      rewrite Hst in Hti; destruct Hti as [Hres Hne]; rewrite Hres; eauto.
Qed.

(** X8 (predictionLoop, captureFrame and sendPrediction, PredictionLog.tsx
    lines 338-345 and 430-440): in every state the server reaches, an arrow
    function is at its await of captureFrame exactly while the promise of
    its capture is pending, and a function that went on into sendPrediction
    did so with the frame the promise was resolved with, which is never
    empty: no empty image is uploaded. *)
Theorem X8_uploads_only_non_empty_frames cameras models evs :
  let s := Api.run evs (Api.boot cameras models) in
  Forall Api.stage_agrees (Api.tasks s) ∧
  ∀ t, t ∈ Api.tasks s →
    (Api.stage t = Api.Capturing ↔ Api.outcome (Api.capture t) = Pending) ∧
    ∀ imageBuffer, Api.stage t = Api.Predicting imageBuffer →
      Api.outcome (Api.capture t) = Resolved imageBuffer ∧ imageBuffer ≠ [].
Proof.
  intros s. subst s.
  assert (Hgen : ∀ s, Forall Api.stage_agrees (Api.tasks s) →
            Forall Api.stage_agrees (Api.tasks (Api.run evs s))).
  { induction evs as [|[now ev] evs IH]; intros s Hs; [done|].
    cbn [Api.run]. apply IH. by apply step_stage_agrees. }
  assert (Hall := Hgen (Api.boot cameras models) (Forall_nil_2 _)).
  split; [done|]. intros t Ht.
  pose proof (proj1 (Forall_forall _ _) Hall t Ht) as Hti.
  unfold Api.stage_agrees in Hti. split.
  - split.
    + intros Hst. by rewrite Hst in Hti.
    + intros Ho. destruct (Api.stage t) as [|img|[p|]]; [done|..].
      * destruct Hti as [Hti _]. congruence.
      * destruct Hti as (img & Hti & _). congruence.
      * by rewrite Ho in Hti.
  - intros img Hst. by rewrite Hst in Hti.
Qed.

(** * The resolution a stream is started with *)

Lemma digits_length n s d r :
  Streams.digits n s = Some (d, r) → String.length d = n ∧ s = d +:+ r.
Proof.
  revert s d r. induction n as [|n IH]; intros s d r; cbn.
  - by intros [= <- <-].
  - destruct s as [|c s]; [done|]. destruct (Streams.is_digit c); [|done].
    destruct (Streams.digits n s) as [[d' r']|] eqn:E; [|done].
    intros [= <- <-]. destruct (IH _ _ _ E) as [H1 H2]. cbn. by rewrite H1, H2.
Qed.

Lemma append_String c s r : String c s +:+ r = String c (s +:+ r).
Proof. reflexivity. Qed.

Lemma append_empty_r s : s +:+ "" = s.
Proof. induction s as [|c s IH]; [done|]. by rewrite append_String, IH. Qed.

(** The digits read from a text are read again from themselves, whatever
    follows them. *)
Lemma digits_again n s d r r' :
  Streams.digits n s = Some (d, r) → Streams.digits n (d +:+ r') = Some (d, r').
Proof.
  revert s d r. induction n as [|n IH]; intros s d r; cbn.
  - by intros [= <- <-].
  - destruct s as [|c s]; [done|]. destruct (Streams.is_digit c) eqn:Ec; [|done].
    destruct (Streams.digits n s) as [[d' r'']|] eqn:E; [|done].
    intros [= <- <-]. rewrite append_String. cbn. rewrite Ec. by rewrite (IH _ _ _ E).
Qed.

(** Digits are not read from a text that is shorter than their number, or
    that has the letter x before they are complete. *)
Lemma digits_too_short n d r' :
  String.length d < n →
  Streams.digits n d = None ∧ Streams.digits n (d +:+ String "x" r') = None.
Proof.
  revert d. induction n as [|n IH]; intros d Hd; [lia|].
  destruct d as [|c d]; [done|]. cbn in Hd. rewrite append_String. cbn [Streams.digits].
  destruct (Streams.is_digit c); [|done].
  destruct (IH d) as [-> ->]; [lia|done].
Qed.

Lemma digits_no_more n s d r r' :
  Streams.digits n s = Some (d, r) →
  Streams.digits (S n) d = None ∧
  Streams.digits (S n) (d +:+ String "x" r') = None.
Proof.
  intros E. apply digits_too_short. destruct (digits_length _ _ _ _ E) as [-> _]. lia.
Qed.

(** A text the resolution pattern matched is matched again, as a whole,
    when it is read on its own. *)
Lemma match_resolution_again s res :
  Streams.match_resolution s = Some res → Streams.match_resolution res = Some res.
Proof.
  assert (Hheight : ∀ w r res,
            Streams.digits34 r (λ h _, Some (w +:+ "x" +:+ h)) = Some res →
            ∃ h, res = w +:+ "x" +:+ h ∧
                 Streams.digits34 h (λ h' _, Some (w +:+ "x" +:+ h')) = Some res).
  { intros w r res0. unfold Streams.digits34.
    destruct (Streams.digits 4 r) as [[h r']|] eqn:E4.
    - intros [= <-]. exists h. split; [done|].
      pose proof (digits_again 4 r h r' "" E4) as E. rewrite append_empty_r in E.
      by rewrite E.
    - destruct (Streams.digits 3 r) as [[h r']|] eqn:E3; [|done].
      intros [= <-]. exists h. split; [done|].
      destruct (digits_no_more 3 r h r' "" E3) as [-> _].
      assert (E : Streams.digits 3 h = Some (h, "")).
      { pose proof (digits_again 3 r h r' "" E3) as E.
        by rewrite append_empty_r in E. }
      by rewrite E. }
  assert (Hwidth : ∀ n w r,
            n = 3 ∨ n = 4 →
            Streams.digits n s = Some (w, r) →
            (match r with
             | String "x"%char r' =>
                 Streams.digits34 r' (λ h _, Some (w +:+ "x" +:+ h))
             | _ => None
             end) = Some res →
            Streams.match_resolution res = Some res).
  { intros n w r Hn Ew Hk.
    destruct r as [|c r']; [done|].
    destruct (Ascii.eqb_spec c "x"%char) as [->|Hc];
      [|by destruct c as [[] [] [] [] [] [] [] []]].
    destruct (Hheight w r' res Hk) as (h & Hres & Hh).
    change (res = w +:+ String "x" h) in Hres. rewrite Hres in Hh |- *.
    unfold Streams.match_resolution, Streams.digits34 at 1.
    destruct Hn as [-> | ->].
    - destruct (digits_no_more 3 s w _ h Ew) as [_ ->].
      rewrite (digits_again 3 s w _ (String "x" h) Ew). exact Hh.
    - rewrite (digits_again 4 s w _ (String "x" h) Ew). by rewrite Hh. }
  unfold Streams.match_resolution at 1, Streams.digits34 at 1.
  destruct (Streams.digits 4 s) as [[w r]|] eqn:E4.
  - destruct (match r with String "x"%char r' => _ | _ => None end) as [a|] eqn:Ek.
    + intros [= <-]. eapply (Hwidth 4); eauto.
    + destruct (Streams.digits 3 s) as [[w3 r3]|] eqn:E3; [|done].
      intros Hk. eapply (Hwidth 3); eauto.
  - destruct (Streams.digits 3 s) as [[w3 r3]|] eqn:E3; [|done].
    intros Hk. eapply (Hwidth 3); eauto.
Qed.

Lemma match_all_matched skip line res :
  res ∈ Streams.match_all skip line → ∃ s, Streams.match_resolution s = Some res.
Proof.
  revert skip. induction line as [|c line IH]; intros skip; [by intros ?%elem_of_nil|].
  cbn [Streams.match_all]. destruct skip as [|k]; [|apply IH].
  destruct (Streams.match_resolution (String c line)) as [res'|] eqn:E; [|apply IH].
  intros [->|Hin]%elem_of_cons; [by eexists|by eapply IH].
Qed.

Lemma match_size_discrete_matched line res :
  Streams.match_size_discrete line = Some res → ∃ s, Streams.match_resolution s = Some res.
Proof.
  assert (Hhere : ∀ l, match Streams.strip_prefix "Size: Discrete " l with
                       | Some r => Streams.match_resolution r
                       | None => None
                       end = Some res → ∃ s, Streams.match_resolution s = Some res).
  { intros l. destruct (Streams.strip_prefix _ l) as [r|]; [by eexists|done]. }
  induction line as [|c line IH].
  - cbn [Streams.match_size_discrete].
    destruct (match Streams.strip_prefix _ "" with Some _ => _ | None => _ end) eqn:E; [|done].
    intros [= <-]. by apply (Hhere "").
  - cbn [Streams.match_size_discrete].
    destruct (match Streams.strip_prefix _ (String c line) with Some _ => _ | None => _ end)
      eqn:E; [|done].
    intros [= <-]. by apply (Hhere (String c line)).
Qed.

(** The resolution chosen from a listing is a text of the pattern (three or
    four digits, x, three or four digits) whose numbers are within the
    bound. *)
Lemma selectedRes_usable isWindows output :
  let r := Streams.selectedRes isWindows output in
  Streams.match_resolution r = Some r ∧
  Streams.within_1080p (Streams.candidate r) = true.
Proof.
  unfold Streams.selectedRes.
  destruct (List.find _ _) as [m|] eqn:Hfind; cbv zeta; [|by vm_compute].
  destruct (find_first_is_largest _ _ _ (sort_desc_sorted _) Hfind) as (Hm & Hw & _).
  apply sort_desc_elem, list_elem_of_fmap in Hm as (res & -> & Hres).
  cbn [Streams.res Streams.candidate]. split; [|done].
  apply (proj2 (collect_elem isWindows output)) in Hres as (line & _ & Hline).
  destruct isWindows.
  - apply match_all_matched in Hline as [s Hs]. by eapply match_resolution_again.
  - apply match_size_discrete_matched in Hline as [s Hs]. by eapply match_resolution_again.
Qed.

Lemma schedule_timer deadline es :
  ∃ before after, schedule deadline es = (before ++ (deadline, timer) :: after)%list.
Proof.
  induction es as [|[t e] es (before & after & IH)]; cbn [schedule].
  - by exists [], [].
  - destruct (t <? deadline)%N.
    + exists ((t, child e) :: before), after. by rewrite IH.
    + by exists [], (map (λ te, (te.1, child te.2)) ((t, e) :: es)).
Qed.

Lemma probe_fold_usable isWindows (cbs : list (N * Callback)) p :
  (∀ r, Streams.resolved p = Resolved r →
        Streams.match_resolution r = Some r ∧
        Streams.within_1080p (Streams.candidate r) = true) →
  (∀ m, Streams.resolved p ≠ Rejected m) →
  let p' := fold_left (λ p cb, Streams.detectCameraResolution_on isWindows cb.2 p) cbs p in
  (∀ r, Streams.resolved p' = Resolved r →
        Streams.match_resolution r = Some r ∧
        Streams.within_1080p (Streams.candidate r) = true) ∧
  (∀ m, Streams.resolved p' ≠ Rejected m) ∧
  (Streams.killed p = true → Streams.killed p' = true).
Proof.
  revert p. induction cbs as [|[t cb] cbs IH]; intros p Hok Hrej; [done|].
  cbn [fold_left]. cbv zeta.
  set (p1 := Streams.detectCameraResolution_on isWindows (t, cb).2 p).
  assert (H1 : (∀ r, Streams.resolved p1 = Resolved r →
                     Streams.match_resolution r = Some r ∧
                     Streams.within_1080p (Streams.candidate r) = true) ∧
               (∀ m, Streams.resolved p1 ≠ Rejected m) ∧
               (Streams.killed p = true → Streams.killed p1 = true)).
  { subst p1. destruct cb as [[data|data|code|message]|]; cbn; try done;
      (destruct (Streams.resolved p) as [|r0|m0] eqn:Hp; cbn;
       [|by split_and!; [apply Hok|..]|by destruct (Hrej m0)]);
      (split_and!; [intros r [= <-]|done|done]);
      first [apply selectedRes_usable|by vm_compute]. }
  destruct H1 as (A & B & C). destruct (IH p1 A B) as (A' & B' & C'). fold p1.
  split_and!; [done|done|]. intros Hk. by apply C', C.
Qed.

(** A probe whose callbacks include the one of the timer. *)
Lemma probe_fold_with_timer isWindows (before after : list (N * Callback)) deadline :
  let p := fold_left (λ p cb, Streams.detectCameraResolution_on isWindows cb.2 p)
             (before ++ (deadline, timer) :: after) Streams.detectCameraResolution in
  Streams.killed p = true ∧
  ∃ r, Streams.resolved p = Resolved r ∧
       Streams.match_resolution r = Some r ∧
       Streams.within_1080p (Streams.candidate r) = true.
Proof.
  intros p. subst p.
  rewrite fold_left_app. cbn [fold_left].
  set (p0 := fold_left _ before _).
  destruct (probe_fold_usable isWindows before Streams.detectCameraResolution)
    as (A & B & _); [done|done|]. fold p0 in A, B.
  set (p1 := Streams.detectCameraResolution_on isWindows _ p0).
  assert (H1 : Streams.killed p1 = true ∧ is_pending (Streams.resolved p1) = false ∧
               (∀ r, Streams.resolved p1 = Resolved r →
                     Streams.match_resolution r = Some r ∧
                     Streams.within_1080p (Streams.candidate r) = true) ∧
               (∀ m, Streams.resolved p1 ≠ Rejected m)).
  { subst p1. cbn. destruct (Streams.resolved p0) as [|r0|m0] eqn:Hp; cbn.
    - split_and!; [done|done| |done]. intros r [= <-]. by vm_compute.
    - split_and!; [done|done|apply A|done].
    - by destruct (B m0). }
  destruct H1 as (K & S & A1 & B1).
  destruct (probe_fold_usable isWindows after p1 A1 B1) as (A2 & B2 & K2).
  split; [by apply K2|].
  pose proof (probe_fold_settled isWindows after p1 S) as Hsame.
  destruct (Streams.resolved (fold_left _ after p1)) as [|r|m] eqn:Hend.
  - rewrite <- Hsame in S. done.
  - exists r. split; [done|]. by apply A2.
  - by destruct (B2 m).
Qed.

(** X9 (detectCameraResolution, part_002 lines 9-86): the promise of a probe
    is always resolved and never rejected, whatever the child does: once the
    timer of 5000 ms has run it holds a resolution, which is a text of three
    or four digits, x, three or four digits with width at most 1920 and
    height at most 1080 (the value ffmpeg gets after -s).  The timer is never
    cleared: SIGTERM is sent to the child of every probe, also of one that
    has closed. *)
Theorem X9_probe_resolves_with_a_usable_resolution isWindows es :
  let p := Streams.detectCameraResolution_run isWindows es in
  Streams.killed p = true ∧
  ∃ r, Streams.resolved p = Resolved r ∧
       Streams.match_resolution r = Some r ∧
       Streams.within_1080p (Streams.candidate r) = true.
Proof.
  intros p. subst p. unfold Streams.detectCameraResolution_run.
  destruct (schedule_timer Streams.PROBE_TIMEOUT_MS es) as (before & after & ->).
  apply probe_fold_with_timer.
Qed.

Lemma detect_from_shape isWindows probe devices : ∀ i,
  ∃ cams,
    DetectStreams.detect_from isWindows probe i devices = Some cams ∧
    DetectStreams.device <$> cams = devices ∧
    DetectStreams.id <$> cams = seq i (length devices) ∧
    Forall (λ c, DetectStreams.port c = 20000 + DetectStreams.id c ∧
                 DetectStreams.fps c = 5 ∧
                 Streams.match_resolution (DetectStreams.resolution c)
                   = Some (DetectStreams.resolution c) ∧
                 Streams.within_1080p (Streams.candidate (DetectStreams.resolution c))
                   = true) cams.
Proof.
  induction devices as [|device devices IH]; intros i; cbn [DetectStreams.detect_from].
  - by exists [].
  - unfold DetectStreams.awaited, Streams.detectCameraResolution_run.
    destruct (schedule_timer Streams.PROBE_TIMEOUT_MS (probe device))
      as (before & after & ->).
    destruct (probe_fold_with_timer isWindows before after Streams.PROBE_TIMEOUT_MS)
      as (_ & r & Hr & Hm & Hw).
    rewrite Hr.
    destruct (IH (S i)) as (cams & -> & Hd & Hi & Hc).
    eexists. split; [done|]. rewrite !fmap_cons, Hd, Hi.
    split_and!; [done|done|]. by constructor.
Qed.

(** X10 (detectCameras, part_002 lines 88-157): whatever the resolution
    probes of the devices do, detection returns (on Windows, once the device
    listing has closed).  The cameras are the devices found (the existing
    /dev/video* files, or on Windows the names of the dshow listing), in
    their order, numbered from 0; camera i gets port 20000 + i, 5 frames per
    second and a resolution that is a text of the resolution pattern within
    1920x1080.  When the directory cannot be read there is no camera. *)
Theorem X10_streams_are_numbered_with_usable_settings isWindows readdir existsSync dshow probe :
  ∃ cams,
    DetectStreams.detectCameras isWindows readdir existsSync dshow probe = Some cams ∧
    DetectStreams.device <$> cams =
      (if isWindows then dshow_devices dshow
       else match readdir with
            | Some videoDevices => cameraDevices videoDevices existsSync
            | None => []
            end) ∧
    DetectStreams.id <$> cams = seq 0 (length cams) ∧
    Forall (λ c, DetectStreams.port c = 20000 + DetectStreams.id c ∧
                 DetectStreams.fps c = 5 ∧
                 Streams.match_resolution (DetectStreams.resolution c)
                   = Some (DetectStreams.resolution c) ∧
                 Streams.within_1080p (Streams.candidate (DetectStreams.resolution c))
                   = true) cams.
Proof.
  unfold DetectStreams.detectCameras.
  assert (Hlen : ∀ (cams : list DetectStreams.Camera) devices,
            DetectStreams.device <$> cams = devices → length devices = length cams).
  { intros cams devices <-. by rewrite length_fmap. }
  destruct isWindows; [|destruct readdir as [videoDevices|]].
  - destruct (detect_from_shape true probe (dshow_devices dshow) 0)
      as (cams & -> & Hd & Hi & Hc).
    exists cams. rewrite (Hlen _ _ Hd) in Hi. done.
  - destruct (detect_from_shape false probe (cameraDevices videoDevices existsSync) 0)
      as (cams & -> & Hd & Hi & Hc).
    exists cams. rewrite (Hlen _ _ Hd) in Hi. done.
  - by exists [].
Qed.

(** * Camera detection *)

Lemma append_length s t : String.length (s +:+ t) = String.length s + String.length t.
Proof. induction s as [|c s IH]; [done|]. rewrite append_String. cbn. by rewrite IH. Qed.

Lemma append_inj_r s1 s2 t : s1 +:+ t = s2 +:+ t → s1 = s2.
Proof.
  revert s2. induction s1 as [|c s1 IH]; intros [|c' s2] H.
  - done.
  - change (t = String c' (s2 +:+ t)) in H. apply (f_equal String.length) in H.
    cbn [String.length] in H. rewrite append_length in H. lia.
  - change (String c (s1 +:+ t) = t) in H. apply (f_equal String.length) in H.
    cbn [String.length] in H. rewrite append_length in H. lia.
  - rewrite !append_String in H. injection H as -> H. by rewrite (IH _ H).
Qed.

Lemma streamUrlOf_inj p q : streamUrlOf p = streamUrlOf q → p = q.
Proof.
  unfold streamUrlOf. intros H. apply (inj (String.append _)) in H.
  apply append_inj_r in H. by apply (inj pretty) in H.
Qed.

Lemma streamUrlOf_not_empty p : String.eqb (streamUrlOf p) "" = false.
Proof. reflexivity. Qed.

(** The cameras made from a list of devices by the loops of detectCameras,
    with ports from [base]. *)
Lemma numbered_cameras base devices :
  let cams := imap (λ i device, {| Api.id := i; Api.device := device;
                                   Api.streamPort := base + i;
                                   Api.streamUrl := streamUrlOf (base + i) |}) devices in
  Api.device <$> cams = devices ∧
  Api.id <$> cams = seq 0 (length cams) ∧
  Forall (λ c, Api.streamPort c = base + Api.id c ∧
               Api.streamUrl c = streamUrlOf (Api.streamPort c)) cams ∧
  NoDup (Api.streamPort <$> cams) ∧
  NoDup (Api.streamUrl <$> cams).
Proof.
  intros cams. subst cams. rewrite !fmap_imap, length_imap. unfold compose.
  cbn [Api.id Api.device Api.streamPort Api.streamUrl].
  rewrite !imap_seq_0. split_and!.
  - rewrite <- (list_fmap_id devices) at 2. by rewrite <- imap_const.
  - by rewrite list_fmap_id.
  - apply Forall_forall. intros c (i & device & -> & _)%elem_of_lookup_imap. done.
  - apply NoDup_fmap_2; [|apply NoDup_seq]. intros i j. lia.
  - apply NoDup_fmap_2; [|apply NoDup_seq]. intros i j H.
    apply streamUrlOf_inj in H. lia.
Qed.

Lemma cameraDevices_elem videoDevices existsSync d :
  d ∈ cameraDevices videoDevices existsSync ↔
  ∃ name, name ∈ videoDevices ∧ startsWith "video" name = true ∧
          d = "/dev/" +:+ name ∧ existsSync d = true.
Proof.
  unfold cameraDevices. rewrite list_elem_of_In, filter_In, <- list_elem_of_In.
  change (map ?f ?l) with (f <$> l). rewrite list_elem_of_fmap. split.
  - intros [(name & -> & Hn) He]. exists name. split_and!; try done.
    by apply list_elem_of_In, filter_In in Hn as [Hn%list_elem_of_In Hv].
    by apply list_elem_of_In, filter_In in Hn as [_ Hv].
  - intros (name & Hn & Hv & -> & He). split; [|done]. exists name. split; [done|].
    apply list_elem_of_In, filter_In. by rewrite <- list_elem_of_In.
Qed.

(** X11 (detectCameras, PredictionLog.tsx lines 215-279 and part_001 lines
    25-50): the cameras are numbered 0, 1, 2, ... in the order their devices
    were found; camera i listens on port 20000 + i (8081 + i in the first
    server) and its stream URL is the one of that port, so no two cameras
    share a port or a URL.  On Linux the devices are exactly the entries of
    /dev whose name starts with video and whose path exists; when /dev
    cannot be read, and on a platform that is neither Linux nor Windows,
    there is no camera. *)
Theorem X11_cameras_are_numbered_with_distinct_ports platform readdir existsSync dshow :
  let cams := DetectApi.detectCameras platform readdir existsSync dshow in
  let legacy := DetectLegacy.detectCameras readdir existsSync in
  (Api.id <$> cams = seq 0 (length cams) ∧
   Forall (λ c, Api.streamPort c = 20000 + Api.id c ∧
                Api.streamUrl c = streamUrlOf (Api.streamPort c)) cams ∧
   NoDup (Api.streamPort <$> cams) ∧
   NoDup (Api.streamUrl <$> cams)) ∧
  (Api.id <$> legacy = seq 0 (length legacy) ∧
   Forall (λ c, Api.streamPort c = 8081 + Api.id c ∧
                Api.streamUrl c = streamUrlOf (Api.streamPort c)) legacy ∧
   NoDup (Api.streamPort <$> legacy) ∧
   NoDup (Api.streamUrl <$> legacy)) ∧
  Api.device <$> cams =
    match platform with
    | linux => default [] (flip cameraDevices existsSync <$> readdir)
    | win32 => dshow_devices dshow
    | other_platform => []
    end ∧
  Api.device <$> legacy = default [] (flip cameraDevices existsSync <$> readdir) ∧
  ∀ videoDevices d,
    d ∈ cameraDevices videoDevices existsSync ↔
    ∃ name, name ∈ videoDevices ∧ startsWith "video" name = true ∧
            d = "/dev/" +:+ name ∧ existsSync d = true.
Proof.
  intros cams legacy.
  assert (Hnil : Api.id <$> [] = seq 0 (length (@nil Api.Camera)) ∧
                 (∀ base, Forall (λ c, Api.streamPort c = base + Api.id c ∧
                              Api.streamUrl c = streamUrlOf (Api.streamPort c)) []) ∧
                 NoDup (Api.streamPort <$> []) ∧ NoDup (Api.streamUrl <$> []))
    by (split_and!; try done; constructor).
  destruct Hnil as (N1 & N2 & N3 & N4).
  split; [|split; [|split; [|split; [|intros; apply cameraDevices_elem]]]].
  - subst cams. unfold DetectApi.detectCameras, DetectApi.camera.
    destruct platform; [destruct readdir as [videoDevices|]| |];
      try (split_and!; [done|apply N2|done|done]).
    + by destruct (numbered_cameras 20000 (cameraDevices videoDevices existsSync))
        as (_ & ? & ? & ? & ?).
    + by destruct (numbered_cameras 20000 (dshow_devices dshow)) as (_ & ? & ? & ? & ?).
  - subst legacy. unfold DetectLegacy.detectCameras.
    destruct readdir as [videoDevices|]; [|split_and!; [done|apply N2|done|done]].
    by destruct (numbered_cameras 8081 (cameraDevices videoDevices existsSync))
      as (_ & ? & ? & ? & ?).
  - subst cams. unfold DetectApi.detectCameras, DetectApi.camera.
    destruct platform; [destruct readdir as [videoDevices|]| |]; try done.
    + by destruct (numbered_cameras 20000 (cameraDevices videoDevices existsSync)) as [? _].
    + by destruct (numbered_cameras 20000 (dshow_devices dshow)) as [? _].
  - subst legacy. unfold DetectLegacy.detectCameras.
    destruct readdir as [videoDevices|]; [|done].
    by destruct (numbered_cameras 8081 (cameraDevices videoDevices existsSync)) as [? _].
Qed.

(** X12 (the cameras route and detectCameras, PredictionLog.tsx lines 215-279
    and 447-453): every detected camera carries its stream URL, so the
    fallback of the route is never taken: GET /api/cameras sends the
    detected cameras as they are. *)
Theorem X12_cameras_route_sends_the_detected_cameras platform readdir existsSync dshow :
  let cams := DetectApi.detectCameras platform readdir existsSync dshow in
  DetectApi.api_cameras cams = cams.
Proof.
  intros cams.
  assert (Hurl : Forall (λ c, Api.streamUrl c = streamUrlOf (Api.streamPort c)) cams).
  { subst cams. unfold DetectApi.detectCameras, DetectApi.camera.
    destruct platform; [destruct readdir as [videoDevices|]| |]; try done.
    - destruct (numbered_cameras 20000 (cameraDevices videoDevices existsSync))
        as (_ & _ & H & _). eapply Forall_impl; [exact H|]. by intros c [_ ?].
    - destruct (numbered_cameras 20000 (dshow_devices dshow)) as (_ & _ & H & _).
      eapply Forall_impl; [exact H|]. by intros c [_ ?]. }
  unfold DetectApi.api_cameras. induction Hurl as [|c cs Hc Hcs IH]; [done|].
  cbn [map]. rewrite IH. f_equal. rewrite Hc, streamUrlOf_not_empty.
  rewrite <- Hc. by destruct c.
Qed.

Lemma append_assoc s1 s2 s3 : (s1 +:+ s2) +:+ s3 = s1 +:+ s2 +:+ s3.
Proof. induction s1 as [|c s1 IH]; [done|]. by rewrite !append_String, IH. Qed.

Lemma after_prefix_app p s r : after_prefix p s = Some r → s = p +:+ r.
Proof.
  revert s. induction p as [|a p IH]; intros s; cbn [after_prefix].
  - by intros [= ->].
  - destruct s as [|b s]; [done|]. destruct (Ascii.eqb_spec a b) as [->|]; [|done].
    intros H. by rewrite append_String, <- (IH _ H).
Qed.

Lemma startsWith_app p t : startsWith p (p +:+ t) = true.
Proof.
  induction p as [|a p IH]; [done|]. rewrite append_String. cbn [startsWith].
  by rewrite Ascii.eqb_refl, IH.
Qed.

Lemma startsWith_split p s : startsWith p s = true → ∃ t, s = p +:+ t.
Proof.
  revert s. induction p as [|a p IH]; intros s; cbn [startsWith].
  - by exists s.
  - destruct s as [|b s]; [done|]. destruct (Ascii.eqb_spec a b) as [->|]; [|done].
    intros [t ->]%IH. by exists t.
Qed.

Lemma str_includes_intro sub pre post : str_includes sub (pre +:+ sub +:+ post) = true.
Proof.
  induction pre as [|c pre IH].
  - change ("" +:+ sub +:+ post) with (sub +:+ post).
    destruct (sub +:+ post) eqn:E; cbn [str_includes];
      by rewrite <- E, startsWith_app.
  - rewrite append_String. cbn [str_includes]. by rewrite IH, orb_true_r.
Qed.

Lemma up_to_quote_app s :
  s = (up_to_quote s).1 +:+ (up_to_quote s).2 ∧
  str_includes (String dquote "") (up_to_quote s).1 = false.
Proof.
  induction s as [|c s [IH1 IH2]]; [done|]. cbn [up_to_quote].
  destruct (Ascii.eqb_spec c dquote) as [->|Hc]; [done|]. cbn [fst snd]. split.
  - by rewrite append_String, <- IH1.
  - cbn [str_includes startsWith]. rewrite IH2.
    destruct (Ascii.eqb_spec dquote c) as [<-|]; done.
Qed.

(** What the device pattern matches: the name is not empty, holds no double
    quote, and stands in the line between the two markers. *)
Lemma match_video_device_matched line name :
  match_video_device line = Some name →
  name ≠ "" ∧ str_includes (String dquote "") name = false ∧
  ∃ pre post, line = pre +:+ open_name +:+ name +:+ close_name +:+ post.
Proof.
  assert (Hhere : ∀ l,
            match after_prefix open_name l with
            | Some r =>
                let nr := up_to_quote r in
                if negb (String.eqb nr.1 "") && startsWith close_name nr.2
                then Some nr.1 else None
            | None => None
            end = Some name →
            name ≠ "" ∧ str_includes (String dquote "") name = false ∧
            ∃ post, l = open_name +:+ name +:+ close_name +:+ post).
  { intros l. destruct (after_prefix open_name l) as [r|] eqn:Er; [|done]. cbv zeta.
    destruct (up_to_quote_app r) as [Hr Hq].
    destruct (String.eqb_spec (up_to_quote r).1 "") as [|Hne]; [done|]. cbn [negb andb].
    destruct (startsWith close_name (up_to_quote r).2) eqn:Es; [|done].
    intros [= <-]. apply startsWith_split in Es as [post Hpost].
    split_and!; [done|done|]. exists post.
    by rewrite (after_prefix_app _ _ _ Er), Hr at 1; rewrite Hpost. }
  induction line as [|c line IH]; cbn [match_video_device].
  - destruct (match after_prefix open_name "" with Some _ => _ | None => _ end) eqn:E; [|done].
    intros [= <-]. by destruct (Hhere "" E) as (H1 & H2 & post & H3).
  - destruct (match after_prefix open_name (String c line) with Some _ => _ | None => _ end)
      eqn:E.
    + intros [= <-]. destruct (Hhere _ E) as (H1 & H2 & post & H3). split_and!; try done.
      by exists "", post.
    + intros (H1 & H2 & pre & post & ->)%IH. split_and!; try done.
      by exists (String c pre), post.
Qed.

(** X13 (the listing loop of detectCameras on Windows, PredictionLog.tsx
    lines 247-266 and part_002 lines 124-133): the names read from the dshow
    listing are exactly the first matches of the device pattern in the lines
    of the output, in the order of the lines; the two includes tests before
    the pattern never exclude a line the pattern matches.  A name is never
    empty and holds no double quote, and it stands in its line between a
    closing bracket, a space and a double quote, and a double quote, a space
    and (video). *)
Theorem X13_dshow_names_come_from_the_pattern output :
  dshow_devices output = omap match_video_device (Streams.split_lines output) ∧
  (∀ name, name ∈ dshow_devices output ↔
     ∃ line, line ∈ Streams.split_lines output ∧ match_video_device line = Some name) ∧
  ∀ line name, match_video_device line = Some name →
    name ≠ "" ∧ str_includes (String dquote "") name = false ∧
    ∃ pre post, line = pre +:+ open_name +:+ name +:+ close_name +:+ post.
Proof.
  assert (Heq : dshow_devices output = omap match_video_device (Streams.split_lines output)).
  { unfold dshow_devices. apply list_omap_ext, Forall2_same_length_lookup_2; [done|].
    intros i line line' Hl Hl'. assert (line' = line) as -> by congruence.
    destruct (match_video_device line) as [name|] eqn:E; [|by destruct (_ && _)].
    destruct (match_video_device_matched _ _ E) as (_ & _ & pre & post & ->).
    rewrite str_includes_intro.
    rewrite <- (append_assoc open_name), <- (append_assoc pre).
    by rewrite str_includes_intro. }
  split_and!; [done| |apply match_video_device_matched].
  intros name. rewrite Heq. apply list_elem_of_omap.
Qed.

(** * The stream server *)

Lemma mjpeg_run_cons ev evs s : Mjpeg.run (ev :: evs) s = Mjpeg.run evs (Mjpeg.step ev s).
Proof. done. Qed.

Lemma mjpeg_run_app evs1 evs2 s :
  Mjpeg.run (evs1 ++ evs2) s = Mjpeg.run evs2 (Mjpeg.run evs1 s).
Proof. apply fold_left_app. Qed.

Lemma requests_cons ev evs :
  Mjpeg.requests (ev :: evs) = (if Mjpeg.is_request ev then 1 else 0) + Mjpeg.requests evs.
Proof. unfold Mjpeg.requests. cbn [List.filter]. by destruct (Mjpeg.is_request ev). Qed.

(** A listener writes to its own response and to no other. *)
Lemma listener_lookup data v rs :
  length (Mjpeg.listener data v rs) = length rs ∧
  (∀ i, i ≠ v → Mjpeg.listener data v rs !! i = rs !! i) ∧
  (∀ r, rs !! v = Some r →
        Mjpeg.listener data v rs !! v = Some (Mjpeg.write (Mjpeg.part data) r)).
Proof.
  unfold Mjpeg.listener. destruct (rs !! v) as [r|] eqn:Hr.
  - split_and!.
    + apply length_insert.
    + intros i Hi. by apply list_lookup_insert_ne.
    + intros r' [= <-]. apply list_lookup_insert_eq. by eapply lookup_lt_Some.
  - by split_and!.
Qed.

(** A chunk reaches every listener once, and no other response. *)
Lemma emit_lookup data vs : ∀ rs,
  length (Mjpeg.emit data vs rs) = length rs ∧
  (∀ i, i ∉ vs → Mjpeg.emit data vs rs !! i = rs !! i) ∧
  (NoDup vs → ∀ v r, v ∈ vs → rs !! v = Some r →
     Mjpeg.emit data vs rs !! v = Some (Mjpeg.write (Mjpeg.part data) r)).
Proof.
  unfold Mjpeg.emit. induction vs as [|v0 vs IH]; intros rs; cbn [fold_left].
  - split_and!; [done|done|]. by intros _ v r ?%elem_of_nil.
  - destruct (listener_lookup data v0 rs) as (L1 & L2 & L3).
    destruct (IH (Mjpeg.listener data v0 rs)) as (E1 & E2 & E3). split_and!.
    + by rewrite E1.
    + intros i [Hi1 Hi2]%not_elem_of_cons. rewrite E2 by done. by apply L2.
    + intros [Hv0 Hnd]%NoDup_cons v r [->|Hv]%elem_of_cons Hr.
      * rewrite E2 by done. by apply L3.
      * apply E3; [done|done|]. rewrite L2; [done|]. by intros ->.
Qed.

(** The chunks a paused stream held all go to the listener that made it flow. *)
Lemma flow_lookup chunks v : ∀ rs,
  length (Mjpeg.flow chunks v rs) = length rs ∧
  (∀ i, i ≠ v → Mjpeg.flow chunks v rs !! i = rs !! i) ∧
  (∀ r, rs !! v = Some r → Mjpeg.ended r = false →
     Mjpeg.flow chunks v rs !! v =
     Some {| Mjpeg.written := Mjpeg.written r ++ flat_map Mjpeg.part chunks;
             Mjpeg.ended := false; Mjpeg.after_end := Mjpeg.after_end r |}).
Proof.
  unfold Mjpeg.flow. induction chunks as [|data chunks IH]; intros rs; cbn [fold_left].
  - split_and!; [done|done|]. intros r Hr He. rewrite Hr, app_nil_r.
    by destruct r; cbn in He; subst.
  - destruct (listener_lookup data v rs) as (L1 & L2 & L3).
    destruct (IH (Mjpeg.listener data v rs)) as (F1 & F2 & F3). split_and!.
    + by rewrite F1.
    + intros i Hi. rewrite F2 by done. by apply L2.
    + intros r Hr He. rewrite (F3 _ (L3 r Hr)); unfold Mjpeg.write; rewrite He; [|done].
      cbn [Mjpeg.written Mjpeg.ended Mjpeg.after_end flat_map]. by rewrite <- app_assoc.
Qed.

Lemma mjpeg_step_length ev s :
  length (Mjpeg.responses (Mjpeg.step ev s)) =
  length (Mjpeg.responses s) + (if Mjpeg.is_request ev then 1 else 0).
Proof.
  destruct ev as [url|data|v]; cbn [Mjpeg.step Mjpeg.is_request].
  - destruct (String.eqb url "/stream"); cbv zeta;
      [destruct (Mjpeg.listeners s)|]; cbn [Mjpeg.responses];
      rewrite ?(proj1 (flow_lookup _ _ _)), length_app; done.
  - destruct (Mjpeg.listeners s); cbn [Mjpeg.responses];
      rewrite ?(proj1 (emit_lookup _ _ _)); lia.
  - destruct (bool_decide _); cbn [Mjpeg.responses]; rewrite ?length_alter; lia.
Qed.

Lemma mjpeg_run_length evs : ∀ s,
  length (Mjpeg.responses (Mjpeg.run evs s)) = length (Mjpeg.responses s) + Mjpeg.requests evs.
Proof.
  induction evs as [|ev evs IH]; intros s.
  - unfold Mjpeg.requests. cbn. lia.
  - rewrite mjpeg_run_cons, IH, mjpeg_step_length, requests_cons. lia.
Qed.

(** The listeners are distinct and each names a response. *)
Lemma mjpeg_step_valid ev s :
  NoDup (Mjpeg.listeners s) →
  Forall (λ v, v < length (Mjpeg.responses s)) (Mjpeg.listeners s) →
  NoDup (Mjpeg.listeners (Mjpeg.step ev s)) ∧
  Forall (λ v, v < length (Mjpeg.responses (Mjpeg.step ev s)))
         (Mjpeg.listeners (Mjpeg.step ev s)).
Proof.
  intros Hnd Hvalid.
  assert (Hgrow : Forall (λ v, v < length (Mjpeg.responses (Mjpeg.step ev s)))
                         (Mjpeg.listeners s)).
  { eapply Forall_impl; [exact Hvalid|]. cbn. intros v Hv.
    rewrite mjpeg_step_length. lia. }
  pose proof (mjpeg_step_length ev s) as Hlen.
  destruct ev as [url|data|v]; cbn [Mjpeg.step Mjpeg.is_request] in *.
  - destruct (String.eqb url "/stream"); cbv zeta in *; [|done].
    destruct (Mjpeg.listeners s) as [|v0 vs] eqn:Hl;
      cbn [Mjpeg.listeners Mjpeg.responses] in *.
    + split; [apply NoDup_singleton|]. constructor; [lia|done].
    + split.
      * apply NoDup_app. split_and!; [done| |apply NoDup_singleton].
        intros v Hv Heq%list_elem_of_singleton. subst v.
        pose proof (proj1 (Forall_forall _ _) Hvalid _ Hv) as Hlt. cbn beta in Hlt. lia.
      * apply Forall_app. split; [done|]. constructor; [lia|done].
  - by destruct (Mjpeg.listeners s).
  - by destruct (bool_decide _).
Qed.

Lemma mjpeg_run_valid evs : ∀ s,
  NoDup (Mjpeg.listeners s) →
  Forall (λ v, v < length (Mjpeg.responses s)) (Mjpeg.listeners s) →
  NoDup (Mjpeg.listeners (Mjpeg.run evs s)) ∧
  Forall (λ v, v < length (Mjpeg.responses (Mjpeg.run evs s)))
         (Mjpeg.listeners (Mjpeg.run evs s)).
Proof.
  induction evs as [|ev evs IH]; intros s Hnd Hvalid; [done|].
  rewrite mjpeg_run_cons. destruct (mjpeg_step_valid ev s Hnd Hvalid). by apply IH.
Qed.

(** A listener, once registered, stays registered. *)
Lemma mjpeg_step_listeners ev s v :
  v ∈ Mjpeg.listeners s → v ∈ Mjpeg.listeners (Mjpeg.step ev s).
Proof.
  intros Hv. destruct ev as [url|data|w]; cbn [Mjpeg.step].
  - destruct (String.eqb url "/stream"); cbv zeta; [|done].
    destruct (Mjpeg.listeners s) as [|v0 vs] eqn:Hl; [by apply elem_of_nil in Hv|].
    cbn [Mjpeg.listeners]. apply elem_of_app. by left.
  - by destruct (Mjpeg.listeners s).
  - by destruct (bool_decide _).
Qed.

Lemma mjpeg_run_listeners evs : ∀ s v,
  v ∈ Mjpeg.listeners s → v ∈ Mjpeg.listeners (Mjpeg.run evs s).
Proof.
  induction evs as [|ev evs IH]; intros s v Hv; [done|].
  rewrite mjpeg_run_cons. by apply IH, mjpeg_step_listeners.
Qed.

(** A response that has no listener is never written to. *)
Lemma mjpeg_step_outside ev s i :
  i < length (Mjpeg.responses s) → i ∉ Mjpeg.listeners s →
  (i ∉ Mjpeg.listeners (Mjpeg.step ev s)) ∧
  Mjpeg.responses (Mjpeg.step ev s) !! i = Mjpeg.responses s !! i.
Proof.
  intros Hi Hout. destruct ev as [url|data|w]; cbn [Mjpeg.step].
  - destruct (String.eqb url "/stream"); cbv zeta.
    + destruct (Mjpeg.listeners s) as [|v0 vs] eqn:Hl; cbn [Mjpeg.listeners Mjpeg.responses].
      * split; [intros Heq%list_elem_of_singleton; lia|].
        rewrite (proj1 (proj2 (flow_lookup _ _ _))) by lia. by apply lookup_app_l.
      * split; [|by apply lookup_app_l].
        intros [?|Heq%list_elem_of_singleton]%elem_of_app; [done|lia].
    + cbn [Mjpeg.listeners Mjpeg.responses]. split; [done|by apply lookup_app_l].
  - destruct (Mjpeg.listeners s) as [|v0 vs] eqn:Hl; cbn [Mjpeg.listeners Mjpeg.responses].
    + split; [apply not_elem_of_nil|done].
    + split; [done|]. by apply emit_lookup.
  - destruct (bool_decide _) eqn:Hw; cbn [Mjpeg.listeners Mjpeg.responses]; [|done].
    split; [done|]. apply bool_decide_eq_true in Hw. apply list_lookup_alter_ne. by intros ->.
Qed.

Lemma mjpeg_run_outside evs : ∀ s i,
  i < length (Mjpeg.responses s) → i ∉ Mjpeg.listeners s →
  (i ∉ Mjpeg.listeners (Mjpeg.run evs s)) ∧
  Mjpeg.responses (Mjpeg.run evs s) !! i = Mjpeg.responses s !! i.
Proof.
  induction evs as [|ev evs IH]; intros s i Hi Hout; [done|].
  rewrite mjpeg_run_cons. destruct (mjpeg_step_outside ev s i Hi Hout) as [H1 H2].
  rewrite <- H2. apply IH; [|done]. rewrite mjpeg_step_length. lia.
Qed.






(** X15 (startCameraStream, part_002 lines 208-225): the data listener a
    /stream request adds to ffmpeg.stdout is never removed.  It is still
    registered after any later events, the disconnect of its viewer
    included, which only ends the response: the part of the next chunk
    ffmpeg writes is written to that ended response. *)
Theorem X15_listener_outlives_its_viewer evs v data :
  let s := Mjpeg.run evs Mjpeg.start in
  v ∈ Mjpeg.listeners s →
  (∀ evs', v ∈ Mjpeg.listeners (Mjpeg.run evs' s)) ∧
  (let s1 := Mjpeg.step (Mjpeg.gone v) s in
   Mjpeg.listeners s1 = Mjpeg.listeners s ∧
   Mjpeg.ended <$> Mjpeg.responses s1 !! v = Some true) ∧
  ∃ r, Mjpeg.responses s !! v = Some r ∧
       Mjpeg.responses
         (Mjpeg.run (evs ++ [Mjpeg.gone v; Mjpeg.stdout data]) Mjpeg.start) !! v =
       Some {| Mjpeg.written := Mjpeg.written r; Mjpeg.ended := true;
               Mjpeg.after_end := Mjpeg.after_end r ++ Mjpeg.part data |}.
Proof.
  intros s Hv.
  destruct (mjpeg_run_valid evs Mjpeg.start) as [Hnd Hvalid]; [constructor..|].
  fold s in Hnd, Hvalid.
  pose proof (proj1 (Forall_forall _ _) Hvalid v Hv) as Hlt. cbn beta in Hlt.
  destruct (lookup_lt_is_Some_2 _ _ Hlt) as [r Hr].
  assert (Hgone : Mjpeg.step (Mjpeg.gone v) s =
            {| Mjpeg.responses :=
                 alter (λ r, {| Mjpeg.written := Mjpeg.written r; Mjpeg.ended := true;
                                Mjpeg.after_end := Mjpeg.after_end r |})
                       v (Mjpeg.responses s);
               Mjpeg.listeners := Mjpeg.listeners s; Mjpeg.buffered := Mjpeg.buffered s |}).
  { cbn [Mjpeg.step]. by rewrite bool_decide_eq_true_2. }
  split_and!.
  - intros evs'. by apply mjpeg_run_listeners.
  - cbv zeta. rewrite Hgone. cbn [Mjpeg.responses Mjpeg.listeners].
    split; [done|]. by rewrite list_lookup_alter_eq, Hr.
  - exists r. split; [done|]. rewrite mjpeg_run_app. fold s.
    rewrite !mjpeg_run_cons, Hgone. cbn [Mjpeg.run fold_left Mjpeg.step Mjpeg.listeners].
    destruct (Mjpeg.listeners s) as [|v0 vs] eqn:Hl; [by apply elem_of_nil in Hv|].
    cbn [Mjpeg.responses].
    rewrite (proj2 (proj2 (emit_lookup _ _ _)) Hnd v
               {| Mjpeg.written := Mjpeg.written r; Mjpeg.ended := true;
                  Mjpeg.after_end := Mjpeg.after_end r |} Hv); [done|].
    by rewrite list_lookup_alter_eq, Hr.
Qed.

Lemma X15_disconnect_witness :
  let frame := [xff; xd8; xff; xd9] in
  ∃ r, Mjpeg.responses
         (Mjpeg.run [Mjpeg.request "/stream"; Mjpeg.stdout frame] Mjpeg.start) !! 0 = Some r ∧
       Mjpeg.responses
         (Mjpeg.run ([Mjpeg.request "/stream"; Mjpeg.stdout frame]
                     ++ [Mjpeg.gone 0; Mjpeg.stdout frame]) Mjpeg.start) !! 0 =
       Some {| Mjpeg.written := Mjpeg.written r; Mjpeg.ended := true;
               Mjpeg.after_end := Mjpeg.after_end r ++ Mjpeg.part frame |}.
Proof.
  intros frame.
  exact (proj2 (proj2 (X15_listener_outlives_its_viewer
                         [Mjpeg.request "/stream"; Mjpeg.stdout frame] 0 frame
                         (proj2 (list_elem_of_singleton 0 0) eq_refl)))).
Defined.

(** X16 (the else branch of the request handler, part_002 lines 226-229): a
    request for any other URL is answered 404 and ended at once, and it
    never gets a frame: whatever happens afterwards, chunks, other requests
    and disconnects, nothing more is written to its response and no listener
    is registered for it. *)
Theorem X16_other_urls_get_404_and_no_frames evs1 url evs2 :
  url ≠ "/stream" →
  let s := Mjpeg.run (evs1 ++ Mjpeg.request url :: evs2) Mjpeg.start in
  Mjpeg.responses s !! Mjpeg.requests evs1 =
    Some {| Mjpeg.written := [Mjpeg.writeHead 404 []]; Mjpeg.ended := true;
            Mjpeg.after_end := [] |} ∧
  Mjpeg.requests evs1 ∉ Mjpeg.listeners s.
Proof.
  intros Hurl s. subst s. rewrite mjpeg_run_app, mjpeg_run_cons.
  set (s1 := Mjpeg.run evs1 Mjpeg.start).
  assert (Hlen1 : length (Mjpeg.responses s1) = Mjpeg.requests evs1)
    by (unfold s1; by rewrite mjpeg_run_length).
  destruct (mjpeg_run_valid evs1 Mjpeg.start) as [_ Hvalid1]; [constructor..|].
  fold s1 in Hvalid1. rewrite <- Hlen1.
  cbn [Mjpeg.step]. destruct (String.eqb_spec url "/stream") as [|_]; [done|].
  set (s2 := {| Mjpeg.responses := _; Mjpeg.listeners := _; Mjpeg.buffered := _ |}).
  destruct (mjpeg_run_outside evs2 s2 (length (Mjpeg.responses s1))) as [H1 H2].
  - subst s2. cbn [Mjpeg.responses]. rewrite length_app. cbn. lia.
  - subst s2. cbn [Mjpeg.listeners]. intros Hin.
    pose proof (proj1 (Forall_forall _ _) Hvalid1 _ Hin) as Hlt. cbn beta in Hlt. lia.
  - split; [|done]. rewrite H2. subst s2. cbn [Mjpeg.responses].
    by rewrite lookup_app_r, Nat.sub_diag.
Qed.

Lemma X16_favicon_witness :
  let frame := [xff; xd8; xff; xd9] in
  let s := Mjpeg.run [Mjpeg.request "/stream"; Mjpeg.request "/favicon.ico";
                      Mjpeg.gone 0; Mjpeg.stdout frame; Mjpeg.gone 1; Mjpeg.request "/stream";
                      Mjpeg.stdout frame] Mjpeg.start in
  Mjpeg.responses s !! 1 =
  Some {| Mjpeg.written := [Mjpeg.writeHead 404 []]; Mjpeg.ended := true;
          Mjpeg.after_end := [] |}.
Proof.
  intros frame.
  refine (proj1 (X16_other_urls_get_404_and_no_frames [Mjpeg.request "/stream"]
                   "/favicon.ico"
                   [Mjpeg.gone 0; Mjpeg.stdout frame; Mjpeg.gone 1; Mjpeg.request "/stream";
                    Mjpeg.stdout frame] _)).
  discriminate.
Defined.

(** * The prediction panel *)

Lemma useEffect_take predictions displayed :
  Dashboard.useEffect predictions displayed =
  if 0 <? length (Dashboard.newPredictions predictions displayed)
  then take 50 (Dashboard.newPredictions predictions displayed ++ displayed)%list
  else displayed.
Proof. done. Qed.

Lemma newPredictions_elem predictions displayed p :
  p ∈ Dashboard.newPredictions predictions displayed → p ∈ predictions.
Proof.
  unfold Dashboard.newPredictions. rewrite !list_elem_of_In, filter_In. by intros [? _].
Qed.

(** X17 (the effect of PredictionLog, PredictionLog.tsx lines 19-32):
    whatever the polls deliver, the panel never holds more than 50
    predictions, and every prediction it holds was delivered by a poll. *)
Theorem X17_panel_holds_at_most_50 polls :
  length (Dashboard.after_polls polls) ≤ 50 ∧
  ∀ p, p ∈ Dashboard.after_polls polls → ∃ predictions, predictions ∈ polls ∧ p ∈ predictions.
Proof.
  unfold Dashboard.after_polls.
  assert (Hgen : ∀ displayed,
            length displayed ≤ 50 →
            length (fold_left (λ displayed predictions,
                                 Dashboard.useEffect predictions displayed) polls displayed)
              ≤ 50 ∧
            ∀ p, p ∈ fold_left (λ displayed predictions,
                                  Dashboard.useEffect predictions displayed) polls displayed →
                 p ∈ displayed ∨ ∃ predictions, predictions ∈ polls ∧ p ∈ predictions).
  { induction polls as [|predictions polls IH]; intros displayed Hlen; cbn [fold_left].
    - split; [done|]. by left.
    - destruct (IH (Dashboard.useEffect predictions displayed)) as [H1 H2].
      { rewrite useEffect_take. destruct (0 <? _); [|done]. rewrite length_take. lia. }
      split; [done|]. intros p [Hp|(ps & Hps & Hp)]%H2.
      + rewrite useEffect_take in Hp. destruct (0 <? _); [|by left].
        apply elem_of_take in Hp as (i & Hp & _). apply list_elem_of_lookup_2 in Hp.
        apply elem_of_app in Hp as [Hp|Hp]; [|by left].
        right. exists predictions. split; [by left|]. by eapply newPredictions_elem.
      + right. exists ps. split; [by right|done]. }
  destruct (Hgen []) as [H1 H2]; [cbn; lia|]. split; [done|].
  intros p [Hp|Hp]%H2; [by apply elem_of_nil in Hp|done].
Qed.

Lemma same_entry_key displayed pred :
  Dashboard.same_entry displayed pred = true ↔ Dashboard.key displayed = Dashboard.key pred.
Proof.
  unfold Dashboard.same_entry, Dashboard.key.
  rewrite !andb_true_iff, Nat.eqb_eq, bool_decide_eq_true, N.eqb_eq. split.
  - by intros [[-> ->] ->].
  - by intros [= -> -> ->].
Qed.

Lemma displayed_key displayed pred :
  existsb (λ d, Dashboard.same_entry d pred) displayed = true ↔
  Dashboard.key pred ∈ Dashboard.key <$> displayed.
Proof.
  rewrite existsb_exists, list_elem_of_fmap. split.
  - intros (d & Hd%list_elem_of_In & Hk%same_entry_key). by exists d.
  - intros (d & Hk & Hd%list_elem_of_In). exists d. split; [done|]. by apply same_entry_key.
Qed.

Lemma filter_all {A} (f : A → bool) l : Forall (λ x, f x = true) l → List.filter f l = l.
Proof. induction 1 as [|x l Hx Hl IH]; [done|]. cbn. by rewrite Hx, IH. Qed.

Lemma filter_none {A} (f : A → bool) l : Forall (λ x, f x = false) l → List.filter f l = [].
Proof. induction 1 as [|x l Hx Hl IH]; [done|]. cbn. by rewrite Hx. Qed.

(** Of a delivery with distinct keys, the predictions that are not on the
    panel are new, those on the panel are not. *)
Lemma newPredictions_split l1 l2 :
  NoDup (Dashboard.key <$> (l1 ++ l2)%list) →
  Dashboard.newPredictions (l1 ++ l2) l1 = l2 ∧
  Dashboard.newPredictions (l1 ++ l2) l2 = l1.
Proof.
  rewrite fmap_app. intros (Hn1 & Hdisj & Hn2)%NoDup_app.
  unfold Dashboard.newPredictions. rewrite !List.filter_app. split.
  - rewrite filter_none, filter_all; [done|..]; apply Forall_forall; intros p Hp.
    + apply negb_true_iff, not_true_iff_false. rewrite displayed_key. intros Hk.
      apply (Hdisj _ Hk). by apply list_elem_of_fmap_2.
    + apply negb_false_iff, displayed_key. by apply list_elem_of_fmap_2.
  - rewrite filter_all, filter_none; [by rewrite app_nil_r|..];
      apply Forall_forall; intros p Hp.
    + apply negb_false_iff, displayed_key. by apply list_elem_of_fmap_2.
    + apply negb_true_iff, not_true_iff_false. rewrite displayed_key. intros Hk.
      apply (Hdisj (Dashboard.key p)); [by apply list_elem_of_fmap_2|done].
Qed.

(** X18 (the effect of PredictionLog, PredictionLog.tsx lines 19-32, fed by
    the poll of App.tsx): when the server's buffer is full (100 predictions,
    with distinct camera, model and timestamp) and the polls keep delivering
    the same 100, the panel does not settle.  The first poll shows the 50
    newest; the next poll finds the 50 oldest missing and puts them on top,
    which pushes the newest out; the poll after that puts the newest back:
    the panel alternates between the two halves, poll after poll. *)
Theorem X18_full_buffer_alternates predictions n :
  NoDup (Dashboard.key <$> predictions) →
  length predictions = 100 →
  Dashboard.after_polls (replicate (S n) predictions) =
  if Nat.even n then take 50 predictions else drop 50 predictions.
Proof.
  intros Hnd Hlen. rewrite <- (take_drop 50 predictions) in Hnd.
  destruct (newPredictions_split _ _ Hnd) as [Hnew1 Hnew2].
  rewrite take_drop in Hnew1, Hnew2.
  assert (Htake : length (take 50 predictions) = 50) by (rewrite length_take; lia).
  assert (Hdrop : length (drop 50 predictions) = 50) by (rewrite length_drop; lia).
  assert (Hfirst : Dashboard.useEffect predictions [] = take 50 predictions).
  { rewrite useEffect_take. unfold Dashboard.newPredictions. cbn [existsb negb].
    rewrite filter_all by (by apply Forall_forall). rewrite app_nil_r.
    by destruct predictions. }
  assert (Hodd : Dashboard.useEffect predictions (take 50 predictions) = drop 50 predictions).
  { rewrite useEffect_take, Hnew1, Hdrop. cbn [Nat.ltb Nat.leb].
    rewrite take_app_length'; done. }
  assert (Heven : Dashboard.useEffect predictions (drop 50 predictions) = take 50 predictions).
  { rewrite useEffect_take, Hnew2, Htake. cbn [Nat.ltb Nat.leb].
    rewrite take_app_length'; done. }
  unfold Dashboard.after_polls. induction n as [|n IH]; [done|].
  rewrite replicate_S_end, fold_left_app, IH. cbn [fold_left].
  rewrite Nat.even_succ, <- Nat.negb_even. by destruct (Nat.even n).
Qed.

Lemma X18_alternation_witness :
  let predictions :=
    (λ k, {| Api.cameraId := 0; Api.model := Some "early-blight";
             Api.timestamp := (200000 - 2000 * N.of_nat k)%N;
             Api.result := JObject [("detections", JArray [])] |}) <$> seq 0 100 in
  Dashboard.after_polls [predictions; predictions] = drop 50 predictions.
Proof.
  intros predictions.
  refine (X18_full_buffer_alternates predictions 1 _ _).
  - subst predictions. rewrite <- list_fmap_compose. apply NoDup_fmap_2_strong; [|apply NoDup_seq].
    intros i j Hi%elem_of_seq Hj%elem_of_seq. unfold compose, Dashboard.key. cbn.
    intros [= H]. lia.
  - subst predictions. by rewrite length_fmap, length_seq.
Defined.

Lemma no_char_includes c sub s :
  str_includes (String c "") s = false → str_includes (String c sub) s = false.
Proof.
  induction s as [|a s IH]; [done|]. cbn [str_includes startsWith].
  destruct (Ascii.eqb c a); cbn [andb orb]; [by destruct s|]. exact IH.
Qed.

Lemma no_char_app c s1 s2 :
  str_includes (String c "") s1 = false →
  str_includes (String c "") s2 = false →
  str_includes (String c "") (s1 +:+ s2) = false.
Proof.
  intros H1 H2. induction s1 as [|a s1 IH]; [done|]. rewrite append_String.
  cbn [str_includes startsWith] in H1 |- *.
  destruct (Ascii.eqb c a); cbn [andb orb] in H1 |- *; [by destruct s1|]. by apply IH.
Qed.

Lemma pretty_N_go_no_letter x s :
  str_includes "N" s = false → str_includes "N" (pretty_N_go x s) = false.
Proof.
  revert s. induction (N.lt_wf_0 x) as [x _ IH]; intros s Hs.
  assert (x = 0 ∨ 0 < x)%N as [->|Hx] by lia; [by rewrite pretty_N_go_0|].
  rewrite pretty_N_go_step by done. apply IH; [by apply N.div_lt|].
  unfold pretty_N_char. repeat case_match; cbn [str_includes startsWith]; by rewrite Hs.
Qed.

Lemma pretty_nat_no_letter (n : nat) : str_includes "N" (pretty n) = false.
Proof.
  unfold pretty, pretty_nat, pretty, pretty_N. case_decide; [done|].
  by apply pretty_N_go_no_letter.
Qed.

(** X19 (getResultSummary and getResultColor, PredictionLog.tsx lines 38-63):
    a result that holds an array of detections is shown green when the
    array is empty and red when it holds one detection or more, whatever
    their number: the count written in front of the summary never makes it
    read as one of the two green texts. *)
Theorem X19_detections_are_red result detections :
  Dashboard.prop "detections" result = Some (JArray detections) →
  Dashboard.getResultSummary result =
    JString (if length detections =? 0 then "No detections"
             else pretty (length detections) +:+ " detection"
                    +:+ (if length detections =? 1 then "" else "s")) ∧
  Dashboard.getResultColor result =
    Some (if length detections =? 0 then "text-green-600" else "text-red-600").
Proof.
  intros Hprop.
  assert (Hsum : Dashboard.getResultSummary result =
            JString (if length detections =? 0 then "No detections"
                     else pretty (length detections) +:+ " detection"
                            +:+ (if length detections =? 1 then "" else "s"))).
  { unfold Dashboard.getResultSummary. destruct result; try done. cbn [truthy negb].
    rewrite Hprop. cbv zeta. by destruct (length detections =? 0). }
  split; [done|]. unfold Dashboard.getResultColor. rewrite Hsum. cbv zeta.
  destruct (length detections =? 0); [done|]. cbn [Dashboard.summary_includes].
  set (n := length detections). set (suffix := if n =? 1 then "" else "s").
  assert (Hn : str_includes "N" (pretty n +:+ " detection" +:+ suffix) = false).
  { apply no_char_app; [apply pretty_nat_no_letter|]. subst suffix. by destruct (n =? 1). }
  rewrite !no_char_includes by done.
  change (pretty n +:+ " detection" +:+ suffix)
    with (pretty n +:+ " " +:+ "detection" +:+ suffix).
  rewrite <- (append_assoc (pretty n) " "). by rewrite str_includes_intro.
Qed.

Lemma X19_two_detections_witness :
  Dashboard.getResultColor
    (JObject [("detections", JArray [JObject [("class", JString "blight")];
                                     JObject [("class", JString "blight")]])])
  = Some "text-red-600".
Proof.
  exact (proj2 (X19_detections_are_red
                  (JObject [("detections", JArray [JObject [("class", JString "blight")];
                                                   JObject [("class", JString "blight")]])])
                  _ eq_refl)).
Defined.

(** X20 (getResultSummary and getResultColor, PredictionLog.tsx lines 47-56):
    getResultSummary returns result.prediction as it is.  When a result has
    no detections array and its prediction is a number other than 0, the
    summary is that number, and getResultColor, which calls includes on the
    summary, throws a TypeError. *)
Theorem X20_numeric_prediction_throws fields q :
  Dashboard.field "detections" fields = None →
  Dashboard.field "prediction" fields = Some (JNumber q) →
  Qeq_bool q 0 = false →
  Dashboard.getResultSummary (JObject fields) = JNumber q ∧
  Dashboard.getResultColor (JObject fields) = None.
Proof.
  intros Hd Hp Hq.
  assert (Hsum : Dashboard.getResultSummary (JObject fields) = JNumber q).
  { unfold Dashboard.getResultSummary, Dashboard.truthy_prop, Dashboard.prop.
    cbn [truthy negb]. rewrite Hd, Hp. cbn [truthy]. by rewrite Hq. }
  split; [done|]. unfold Dashboard.getResultColor. by rewrite Hsum.
Qed.

Lemma X20_class_index_witness :
  Dashboard.getResultColor
    (JObject [("prediction", JNumber 3); ("confidence", JNumber (93 # 100))]) = None.
Proof.
  exact (proj2 (X20_numeric_prediction_throws
                  [("prediction", JNumber 3); ("confidence", JNumber (93 # 100))] 3
                  eq_refl eq_refl eq_refl)).
Defined.

(** * The status route, the frames and the shutdown *)


Lemma captureFrame_callbacks_buffer camera cbs : ∀ c errs,
  Api.imageBuffer (Api.captureFrame_callbacks camera cbs c errs).1 =
  (Api.imageBuffer c ++ concat (Api.stdout_chunks cbs))%list.
Proof.
  induction cbs as [|[now cb] cbs IH]; intros c errs.
  - cbn. by rewrite app_nil_r.
  - rewrite captureFrame_callbacks_cons, IH. unfold Api.stdout_chunks. cbn [omap list_omap snd].
    destruct cb as [[data|data|code|message]|]; cbn; rewrite ?app_assoc; try done.
    + by destruct (_ && _).
    + by destruct (negb _).
Qed.

(** The frame a capture is resolved with is what the child had written
    when it closed with the success code. *)
Lemma captureFrame_callbacks_frame camera cbs : ∀ c errs b,
  Api.outcome c = Pending →
  Api.outcome (Api.captureFrame_callbacks camera cbs c errs).1 = Resolved b →
  ∃ cbs1 now cbs2,
    cbs = (cbs1 ++ (now, child (close (Some 0%Z))) :: cbs2)%list ∧
    b = (Api.imageBuffer c ++ concat (Api.stdout_chunks cbs1))%list ∧ b ≠ [].
Proof.
  induction cbs as [|[now cb] cbs IH]; intros c errs b Hp.
  - cbn. by rewrite Hp.
  - rewrite captureFrame_callbacks_cons.
    set (r := Api.captureFrame_on camera now cb c errs).
    destruct (Api.outcome r.1) as [|b1|m1] eqn:Hr.
    + intros Hb. destruct (IH _ _ _ Hr Hb) as (cbs1 & now' & cbs2 & -> & -> & Hne).
      exists ((now, cb) :: cbs1), now', cbs2. split; [done|].
      assert (Hbuf : Api.imageBuffer r.1 =
                (Api.imageBuffer c ++ concat (Api.stdout_chunks [(now, cb)]))%list)
        by apply (captureFrame_callbacks_buffer camera [(now, cb)] c errs).
      rewrite Hbuf, <- app_assoc in Hne |- *. unfold Api.stdout_chunks in *.
      cbn [omap list_omap snd] in *.
      destruct cb as [[data|data|code|message]|]; cbn in Hne |- *;
        by rewrite ?app_nil_r in Hne |- *.
    + rewrite captureFrame_callbacks_settled by (by rewrite Hr). rewrite Hr.
      intros [= ->]. exists [], now, cbs. subst r.
      destruct cb as [[data|data|code|message]|]; cbn in Hr; rewrite ?Hp in Hr; try done.
      * destruct (bool_decide (code = Some 0%Z)) eqn:Hcode; cbn in Hr; [|done].
        apply bool_decide_eq_true in Hcode as ->.
        destruct (Api.hasData c); cbn in Hr; [|done].
        destruct (Api.imageBuffer c) as [|x buf] eqn:Hbuf; cbn in Hr; [done|].
        injection Hr as <-. cbn. by rewrite app_nil_r.
      * destruct (negb _); cbn in Hr; rewrite ?Hp in Hr; done.
    + rewrite captureFrame_callbacks_settled by (by rewrite Hr). by rewrite Hr.
Qed.

(** X22 (captureFrame, PredictionLog.tsx lines 320-345): the frame a capture
    hands to sendPrediction is what ffmpeg wrote to stdout, chunk after
    chunk in the order of arrival, up to the moment the child closed with
    exit code 0, and it is not empty; chunks that arrive later are added to
    the buffer but not to the frame. *)
Theorem X22_frame_is_what_ffmpeg_wrote_before_closing camera cbs errs b :
  let r := Api.captureFrame_callbacks camera cbs Api.captureFrame errs in
  Api.outcome r.1 = Resolved b →
  (∃ cbs1 now cbs2,
     cbs = (cbs1 ++ (now, child (close (Some 0%Z))) :: cbs2)%list ∧
     b = concat (Api.stdout_chunks cbs1) ∧ b ≠ []) ∧
  Api.imageBuffer r.1 = concat (Api.stdout_chunks cbs).
Proof.
  intros r Hb. split.
  - by apply (captureFrame_callbacks_frame camera cbs Api.captureFrame errs b).
  - apply (captureFrame_callbacks_buffer camera cbs Api.captureFrame errs).
Qed.

Lemma X22_two_chunks_witness :
  let camera := Api.mkCamera 0 "/dev/video0" 20000 "http://localhost:20000/stream" in
  let cbs := [(300%N, child (stdout_data [xff; xd8]));
              (310%N, child (stdout_data [xff; xd9]));
              (320%N, child (close (Some 0%Z)))] in
  let r := Api.captureFrame_callbacks camera cbs Api.captureFrame [] in
  Api.outcome r.1 = Resolved [xff; xd8; xff; xd9] ∧
  Api.imageBuffer r.1 = concat (Api.stdout_chunks cbs).
Proof.
  intros camera cbs r. split; [reflexivity|].
  exact (proj2 (X22_frame_is_what_ffmpeg_wrote_before_closing camera cbs []
                  [xff; xd8; xff; xd9] eq_refl)).
Defined.

Lemma legacy_run_app es1 es2 c :
  Legacy.captureFrame_run (es1 ++ es2) c =
  match Legacy.captureFrame_run es1 c with
  | Some c' => Legacy.captureFrame_run es2 c'
  | None => None
  end.
Proof.
  revert c. induction es1 as [|e es1 IH]; intros c; [done|].
  cbn [Legacy.captureFrame_run app]. destruct (Legacy.captureFrame_on e c); [apply IH|done].
Qed.

Lemma legacy_run_settled es : ∀ c,
  is_pending (Legacy.outcome c) = false →
  forallb (λ e, negb (Legacy.is_error e)) es = true →
  ∃ c', Legacy.captureFrame_run es c = Some c' ∧ Legacy.outcome c' = Legacy.outcome c.
Proof.
  induction es as [|e es IH]; intros c Hc Hes; [by exists c|].
  cbn [forallb] in Hes. apply andb_true_iff in Hes as [He Hes].
  cbn [Legacy.captureFrame_run].
  destruct e as [data|data|code|message]; [| | |done]; cbn [Legacy.captureFrame_on].
  - destruct (IH {| Legacy.imageBuffer := Legacy.imageBuffer c ++ data;
                    Legacy.outcome := Legacy.outcome c |}) as (c' & -> & Ho); try done.
    by exists c'.
  - by apply IH.
  - destruct (decide (code = Some 0%Z)).
    + destruct (IH {| Legacy.imageBuffer := Legacy.imageBuffer c;
                      Legacy.outcome := resolve (Legacy.imageBuffer c) (Legacy.outcome c) |})
        as (c' & -> & Ho); cbn; rewrite ?resolve_settled; try done.
      exists c'. split; [done|]. by rewrite Ho; cbn; rewrite resolve_settled.
    + destruct (IH {| Legacy.imageBuffer := Legacy.imageBuffer c;
                      Legacy.outcome := reject ("FFmpeg exited with code " +:+ show_code code)
                                               (Legacy.outcome c) |})
        as (c' & -> & Ho); cbn; rewrite ?reject_settled; try done.
      exists c'. split; [done|]. by rewrite Ho; cbn; rewrite reject_settled.
Qed.

Lemma legacy_run_waiting es : ∀ c,
  Legacy.outcome c = Pending →
  forallb (λ e, negb (is_close e) && negb (Legacy.is_error e)) es = true →
  Legacy.captureFrame_run es c =
  Some {| Legacy.imageBuffer := Legacy.imageBuffer c ++ concat (Legacy.stdout_chunks es);
          Legacy.outcome := Pending |}.
Proof.
  induction es as [|e es IH]; intros c Hc Hes.
  - cbn. rewrite app_nil_r. by destruct c; cbn in Hc; subst.
  - cbn [forallb] in Hes. apply andb_true_iff in Hes as [He Hes].
    cbn [Legacy.captureFrame_run].
    destruct e as [data|data|code|message]; try done; cbn [Legacy.captureFrame_on].
    + rewrite IH by done. cbn. by rewrite <- app_assoc.
    + by rewrite IH.
Qed.

(** X23 (captureFrame of the first server, part_001 lines 92-121): this
    capture has no timer and no error listener.  While the child has not
    closed the promise stays pending, however long that is; the first close
    settles it, resolving with what the child wrote to stdout, chunk after
    chunk, when the exit code is 0 (an empty frame included) and rejecting
    with the exit code otherwise; an error event of the child is thrown. *)
Theorem X23_first_server_capture_waits_for_close es1 code es2 message :
  forallb (λ e, negb (is_close e) && negb (Legacy.is_error e)) es1 = true →
  forallb (λ e, negb (Legacy.is_error e)) es2 = true →
  (∃ c, Legacy.captureFrame_run es1 Legacy.captureFrame = Some c ∧
        Legacy.outcome c = Pending) ∧
  (∃ c, Legacy.captureFrame_run (es1 ++ close code :: es2) Legacy.captureFrame = Some c ∧
        Legacy.outcome c =
          if decide (code = Some 0%Z) then Resolved (concat (Legacy.stdout_chunks es1))
          else Rejected ("FFmpeg exited with code " +:+ show_code code)) ∧
  Legacy.captureFrame_run (es1 ++ error message :: es2) Legacy.captureFrame = None.
Proof.
  intros H1 H2.
  pose proof (legacy_run_waiting es1 Legacy.captureFrame eq_refl H1) as Hrun.
  cbn [Legacy.captureFrame Legacy.imageBuffer app] in Hrun. split_and!.
  - eexists. by split.
  - rewrite legacy_run_app, Hrun. cbn [Legacy.captureFrame_run Legacy.captureFrame_on].
    destruct (decide (code = Some 0%Z)); cbn [Legacy.imageBuffer Legacy.outcome resolve reject].
    + destruct (legacy_run_settled es2
                  {| Legacy.imageBuffer := concat (Legacy.stdout_chunks es1);
                     Legacy.outcome := Resolved (concat (Legacy.stdout_chunks es1)) |})
        as (c' & -> & Ho); try done. by exists c'.
    + destruct (legacy_run_settled es2
                  {| Legacy.imageBuffer := concat (Legacy.stdout_chunks es1);
                     Legacy.outcome :=
                       Rejected ("FFmpeg exited with code " +:+ show_code code) |})
        as (c' & -> & Ho); try done. by exists c'.
  - by rewrite legacy_run_app, Hrun.
Qed.

Lemma X23_slow_child_witness :
  ∃ c, Legacy.captureFrame_run
         [stderr_data "Input #0, video4linux2"; stdout_data [xff; xd8]; stdout_data [xff; xd9]]
         Legacy.captureFrame = Some c ∧
       Legacy.outcome c = Pending.
Proof.
  exact (proj1 (X23_first_server_capture_waits_for_close
                  [stderr_data "Input #0, video4linux2"; stdout_data [xff; xd8];
                   stdout_data [xff; xd9]]
                  (Some 0%Z) [] "spawn ffmpeg ENOENT" eq_refl eq_refl)).
Defined.

Lemma indexOf_delete q l :
  NoDup l →
  match Launcher.indexOf q l with
  | Some processIndex => delete processIndex l
  | None => l
  end = List.filter (λ p, negb (p =? q)) l.
Proof.
  induction 1 as [|y l Hy Hl IH]; [done|]. cbn [Launcher.indexOf List.filter].
  destruct (Nat.eqb_spec q y) as [->|Hne].
  - rewrite Nat.eqb_refl. cbn [negb delete list_delete]. symmetry. apply filter_all.
    apply Forall_forall. intros p Hp. apply negb_true_iff, Nat.eqb_neq. by intros ->.
  - replace (y =? q) with false by (symmetry; apply Nat.eqb_neq; congruence).
    cbn [negb]. rewrite <- IH. by destruct (Launcher.indexOf q l).
Qed.

Lemma main_numbers cameras :
  Launcher.main cameras =
  {| Launcher.ffmpegProcesses := seq 0 (length cameras);
     Launcher.httpServers := seq 0 (length cameras);
     Launcher.calls := length cameras |}.
Proof.
  unfold Launcher.main.
  assert (Hgen : ∀ k, fold_left (λ s (_ : DetectStreams.Camera), Launcher.startCameraStream s)
                        cameras
                        {| Launcher.ffmpegProcesses := seq 0 k;
                           Launcher.httpServers := seq 0 k; Launcher.calls := k |} =
                      {| Launcher.ffmpegProcesses := seq 0 (k + length cameras);
                         Launcher.httpServers := seq 0 (k + length cameras);
                         Launcher.calls := k + length cameras |}).
  { induction cameras as [|c cameras IH]; intros k.
    - cbn. by rewrite Nat.add_0_r.
    - cbn [fold_left length]. unfold Launcher.startCameraStream at 2.
      cbn [Launcher.ffmpegProcesses Launcher.httpServers Launcher.calls].
      replace (seq 0 k ++ [k])%list with (seq 0 (S k)) by (by rewrite seq_S).
      rewrite (IH (S k)).
      by replace (S k + length cameras) with (k + S (length cameras)) by lia. }
  apply (Hgen 0).
Qed.

(** X24 (startCameraStream and cleanup, part_002 lines 193, 237, 252-258 and
    284-304): on shutdown SIGTERM is sent to exactly the ffmpeg processes
    that were started and have not closed, in the order they were started,
    and every HTTP server that was started is closed, also the server of a
    camera whose ffmpeg has already exited: a server is never removed from
    the list. *)
Theorem X24_cleanup_signals_the_processes_still_running cameras closed :
  let s := fold_left (λ s ffmpeg, Launcher.on_close ffmpeg s) closed (Launcher.main cameras) in
  Launcher.cleanup s =
  (List.filter (λ p, negb (existsb (Nat.eqb p) closed)) (seq 0 (length cameras)),
   seq 0 (length cameras)).
Proof.
  intros s. subst s. rewrite main_numbers. unfold Launcher.cleanup.
  set (n := length cameras).
  assert (Hgen : ∀ done,
            let s0 := {| Launcher.ffmpegProcesses :=
                           List.filter (λ p, negb (existsb (Nat.eqb p) done)) (seq 0 n);
                         Launcher.httpServers := seq 0 n; Launcher.calls := n |} in
            let s := fold_left (λ s ffmpeg, Launcher.on_close ffmpeg s) closed s0 in
            Launcher.ffmpegProcesses s =
              List.filter (λ p, negb (existsb (Nat.eqb p) (done ++ closed))) (seq 0 n) ∧
            Launcher.httpServers s = seq 0 n).
  { induction closed as [|q closed IH]; intros done; cbv zeta.
    - cbn [fold_left]. by rewrite app_nil_r.
    - cbn [fold_left]. unfold Launcher.on_close at 2 4.
      cbn [Launcher.ffmpegProcesses Launcher.httpServers Launcher.calls].
      pose proof (indexOf_delete q
                    (List.filter (λ p, negb (existsb (Nat.eqb p) done)) (seq 0 n))
                    (proj2 (NoDup_ListNoDup _)
                       (List.NoDup_filter _ (proj1 (NoDup_ListNoDup _) (NoDup_seq 0 n)))))
        as Hdel.
      assert (Hstep : match Launcher.indexOf q
                              (List.filter (λ p, negb (existsb (Nat.eqb p) done)) (seq 0 n))
                      with
                      | Some processIndex =>
                          {| Launcher.ffmpegProcesses :=
                               delete processIndex
                                 (List.filter (λ p, negb (existsb (Nat.eqb p) done)) (seq 0 n));
                             Launcher.httpServers := seq 0 n; Launcher.calls := n |}
                      | None =>
                          {| Launcher.ffmpegProcesses :=
                               List.filter (λ p, negb (existsb (Nat.eqb p) done)) (seq 0 n);
                             Launcher.httpServers := seq 0 n; Launcher.calls := n |}
                      end =
                      {| Launcher.ffmpegProcesses :=
                           List.filter (λ p, negb (existsb (Nat.eqb p) (done ++ [q])))
                                       (seq 0 n);
                         Launcher.httpServers := seq 0 n; Launcher.calls := n |}).
      { assert (Hfilter : List.filter (λ p, negb (p =? q))
                            (List.filter (λ p, negb (existsb (Nat.eqb p) done)) (seq 0 n)) =
                          List.filter (λ p, negb (existsb (Nat.eqb p) (done ++ [q])))
                                      (seq 0 n)).
        { generalize (seq 0 n) as l. induction l as [|p l IHl]; [done|].
          cbn [List.filter]. rewrite existsb_app. cbn [existsb]. rewrite orb_false_r.
          destruct (existsb (Nat.eqb p) done); cbn [negb orb List.filter]; [done|].
          destruct (p =? q); cbn [negb]; by rewrite IHl. }
        rewrite <- Hfilter, <- Hdel. by destruct (Launcher.indexOf q _). }
      rewrite Hstep. destruct (IH (done ++ [q])%list) as [E1 E2].
      by rewrite <- app_assoc in E1. }
  destruct (Hgen []) as [E1 E2]. cbn [existsb negb app] in E1, E2.
  rewrite filter_all in E1, E2 by (by apply Forall_forall).
  by rewrite E1, E2.
Qed.

Lemma detect_from_numbers isWindows probe devices : ∀ i cams,
  DetectStreams.detect_from isWindows probe i devices = Some cams →
  (λ c, (DetectStreams.id c, DetectStreams.device c, DetectStreams.port c)) <$> cams =
  imap (λ j device, (i + j, device, 20000 + (i + j))) devices.
Proof.
  induction devices as [|device devices IH]; intros i cams; cbn [DetectStreams.detect_from].
  - by intros [= <-].
  - destruct (DetectStreams.awaited _) as [resolution|]; [|done].
    destruct (DetectStreams.detect_from isWindows probe (S i) devices) as [rest|] eqn:E;
      [|done].
    intros [= <-]. rewrite fmap_cons, imap_cons, (IH _ _ E).
    cbn [DetectStreams.id DetectStreams.device DetectStreams.port].
    rewrite Nat.add_0_r. f_equal. apply imap_ext. intros j d _. cbn [compose].
    by replace (S i + j) with (i + S j) by lia.
Qed.

(** X25 (detectCameras of the server, PredictionLog.tsx lines 215-279, and of
    the launcher, part_002 lines 88-157; captureFrame, line 308): run on the
    same machine, on Linux or on Windows, the server and the stream launcher
    find the same devices and give them the same numbers and ports: the URL
    a capture of camera i reads (localhost, the camera's streamPort, /stream)
    is the one the launcher serves camera i on. *)
Theorem X25_server_and_launcher_agree_on_ports readdir existsSync dshow probe :
  (∃ cams,
     DetectStreams.detectCameras false readdir existsSync dshow probe = Some cams ∧
     (λ c, (Api.id c, Api.device c, Api.streamPort c)) <$>
       DetectApi.detectCameras linux readdir existsSync dshow =
     (λ c, (DetectStreams.id c, DetectStreams.device c, DetectStreams.port c)) <$> cams) ∧
  (∃ cams,
     DetectStreams.detectCameras true readdir existsSync dshow probe = Some cams ∧
     (λ c, (Api.id c, Api.device c, Api.streamPort c)) <$>
       DetectApi.detectCameras win32 readdir existsSync dshow =
     (λ c, (DetectStreams.id c, DetectStreams.device c, DetectStreams.port c)) <$> cams) ∧
  ∀ c, c ∈ DetectApi.detectCameras linux readdir existsSync dshow ∨
       c ∈ DetectApi.detectCameras win32 readdir existsSync dshow →
       Api.streamUrl c = streamUrlOf (Api.streamPort c).
Proof.
  assert (Hboth : ∀ isWindows devices,
            ∃ cams, DetectStreams.detect_from isWindows probe 0 devices = Some cams ∧
              (λ c, (Api.id c, Api.device c, Api.streamPort c)) <$>
                imap DetectApi.camera devices =
              (λ c, (DetectStreams.id c, DetectStreams.device c, DetectStreams.port c))
                <$> cams).
  { intros isWindows devices.
    destruct (detect_from_shape isWindows probe devices 0) as (cams & Hcams & _).
    exists cams. split; [done|]. rewrite (detect_from_numbers _ _ _ _ _ Hcams), fmap_imap.
    by apply imap_ext. }
  split_and!.
  - unfold DetectStreams.detectCameras, DetectApi.detectCameras.
    destruct readdir as [videoDevices|]; [apply Hboth|by exists []].
  - unfold DetectStreams.detectCameras, DetectApi.detectCameras. apply Hboth.
  - intros c Hc.
    assert (Hurl : ∀ devices, c ∈ imap DetectApi.camera devices →
              Api.streamUrl c = streamUrlOf (Api.streamPort c)).
    { intros devices (i & device & -> & _)%elem_of_lookup_imap. done. }
    unfold DetectApi.detectCameras in Hc. destruct Hc as [Hc|Hc]; [|by eapply Hurl].
    destruct readdir as [videoDevices|]; [by eapply Hurl|by apply elem_of_nil in Hc].
Qed.
